(** * NSESolver: a three-species nuclear-statistical-equilibrium solver

    Shallow embedding of [NSESolver.ipynb] (functions [X], [mualpha], [mu],
    [get_Xs] and its inner residual [LS]) together with the properties stated
    about them.

    Number model.  The notebook computes with binary64 floats.  Here a float
    is either a real number or one of the three special values, and every
    operation on real operands is the exact real operation: rounding, overflow
    and underflow of binary64 are not modelled, and zero carries no sign.
    What is modelled of the special values is how numpy produces and
    propagates them (logarithm of a non-positive number, division by zero,
    a fractional power of a negative number), because the notebook checks
    none of its arguments.  Where a plain Python float would raise instead
    (division by a zero float, a fractional power of a negative float) the
    model follows numpy; no statement below evaluates such an operation.
    The range of binary64 (flush to zero, overflow to an infinity) is added
    further down as a second arithmetic, [binary64], over which [X], [mu]
    and the first density guesses are transcribed again. *)

From Stdlib Require Import Reals Lra Lia List.
Import ListNotations.

Open Scope R_scope.

(** ** Float values and the numpy operations the notebook uses *)

Inductive fl : Type :=
| Fin (r : R)
| PInf
| NInf
| NaN.

Coercion Fin : R >-> fl.

Declare Scope fl_scope.
Delimit Scope fl_scope with fl.
Bind Scope fl_scope with fl.

Definition Rltb (x y : R) : bool := if Rlt_dec x y then true else false.
Definition Rleb (x y : R) : bool := if Rle_dec x y then true else false.

Definition fl_opp (a : fl) : fl :=
  match a with
  | Fin x => Fin (- x)
  | PInf => NInf
  | NInf => PInf
  | NaN => NaN
  end.

Definition fl_add (a b : fl) : fl :=
  match a, b with
  | NaN, _ | _, NaN => NaN
  | Fin x, Fin y => Fin (x + y)
  | PInf, NInf | NInf, PInf => NaN
  | PInf, _ | _, PInf => PInf
  | NInf, _ | _, NInf => NInf
  end.

Definition fl_sub (a b : fl) : fl := fl_add a (fl_opp b).

(** The infinity an infinite operand turns into when scaled by the real [x]
    ([pos] tells whether the operand was [+inf]); [inf * 0] is [nan]. *)
Definition scale_inf (pos : bool) (x : R) : fl :=
  if Rlt_dec 0 x then (if pos then PInf else NInf)
  else if Rlt_dec x 0 then (if pos then NInf else PInf)
  else NaN.

Definition fl_mul (a b : fl) : fl :=
  match a, b with
  | NaN, _ | _, NaN => NaN
  | Fin x, Fin y => Fin (x * y)
  | Fin x, PInf | PInf, Fin x => scale_inf true x
  | Fin x, NInf | NInf, Fin x => scale_inf false x
  | PInf, PInf | NInf, NInf => PInf
  | PInf, NInf | NInf, PInf => NInf
  end.

(** numpy division: [x / 0] is an infinity of the sign of [x] (or [nan] for
    [0 / 0]) and a warning, not an exception. *)
Definition fl_div (a b : fl) : fl :=
  match a, b with
  | NaN, _ | _, NaN => NaN
  | Fin x, Fin y =>
      if Req_dec_T y 0 then scale_inf true x else Fin (x / y)
  | Fin _, (PInf | NInf) => Fin 0
  | PInf, Fin y => if Rlt_dec y 0 then NInf else PInf
  | NInf, Fin y => if Rlt_dec y 0 then PInf else NInf
  | (PInf | NInf), (PInf | NInf) => NaN
  end.

Infix "+" := fl_add : fl_scope.
Infix "-" := fl_sub : fl_scope.
Infix "*" := fl_mul : fl_scope.
Infix "/" := fl_div : fl_scope.

(** [x ** 2] *)
Definition pow2 (a : fl) : fl := (a * a)%fl.

(** [x ** 1.5]: [nan] for a negative base, as for every fractional exponent. *)
Definition pow1_5 (a : fl) : fl :=
  match a with
  | Fin x =>
      if Rlt_dec 0 x then Fin (Rpower x 1.5)
      else if Rlt_dec x 0 then NaN
      else Fin 0
  | PInf | NInf => PInf
  | NaN => NaN
  end.

Definition np_exp (a : fl) : fl :=
  match a with
  | Fin x => Fin (exp x)
  | PInf => PInf
  | NInf => Fin 0
  | NaN => NaN
  end.

(** [np.log]: [-inf] at zero and [nan] below it, each with a warning only. *)
Definition np_log (a : fl) : fl :=
  match a with
  | Fin x =>
      if Rlt_dec 0 x then Fin (ln x)
      else if Rlt_dec x 0 then NaN
      else NInf
  | PInf => PInf
  | NInf | NaN => NaN
  end.

Definition np_pi : fl := Fin PI.

(** Comparisons: every comparison with [nan] is false. *)
Definition fl_lt (a b : fl) : bool :=
  match a, b with
  | NaN, _ | _, NaN => false
  | Fin x, Fin y => Rltb x y
  | NInf, (Fin _ | PInf) => true
  | Fin _, PInf => true
  | _, _ => false
  end.

Definition fl_le (a b : fl) : bool :=
  match a, b with
  | NaN, _ | _, NaN => false
  | Fin x, Fin y => Rleb x y
  | NInf, _ => true
  | _, PInf => true
  | _, _ => false
  end.

Definition fl_gt (a b : fl) : bool := fl_lt b a.
Definition fl_ge (a b : fl) : bool := fl_le b a.

Infix "<?" := fl_lt (at level 70) : fl_scope.
Infix ">?" := fl_gt (at level 70) : fl_scope.
Infix ">=?" := fl_ge (at level 70) : fl_scope.

(** Python's two-argument [min]: the second argument only when it is
    strictly smaller than the first. *)
Definition py_min (a b : fl) : fl := if (b <? a)%fl then b else a.

(** ** The notebook *)

(** *** Constants *)

Definition mamuc2 : fl := 931.494103.
Definition mamu_grams : fl := 1.66053907e-24.
Definition Navo : fl := 6.02214076e23.
Definition kB : fl := 1.
Definition hc : fl := 1.24e-10.

(** *** Conversions between potentials and mass fractions *)

Definition X (xmu xA xrho xT : fl) : fl :=
  let nQ := pow1_5 (2 * np_pi * xT * xA * mamuc2 / pow2 hc) in
  (xA / (xrho * Navo) * nQ * np_exp (xmu / xT))%fl.

Definition mualpha (mun mup : fl) : fl :=
  (2 * mun + 2 * mup + 28.3)%fl.

Definition mu (T n A : fl) : fl :=
  let nQ := pow1_5 (2 * np_pi * T * A * mamuc2 / pow2 hc) in
  (T * np_log (n / nQ))%fl.

(** *** [get_Xs] *)

(** Three-element arrays ([x], the seed, [values]) are triples. *)
Definition vec3 : Type := fl * fl * fl.

(** The inner function [LS] of [get_Xs]; it closes over [rho], [T], [yp]. *)
Definition LS (rho T yp : fl) (x : vec3) : vec3 :=
  let '(x0, x1, x2) := x in
  (1 - X x0 1 rho T - X x1 1 rho T - X x2 4 rho T,
   yp - X x0 1 rho T - X x2 4 rho T / 2,
   x2 - mualpha x1 x0)%fl.

Section Solver.

(** [scipy.optimize.fsolve], called as [fsolve(func, x0)]: it returns an
    array of the shape of [x0], the root it found or, when it did not
    converge, its last iterate.  It is a library routine, so [get_Xs] is
    parametric in it. *)
Variable fsolve : (vec3 -> vec3) -> vec3 -> vec3.

(** The assignments of the Python body become nested [let]s; the conditional
    yields the three variables that are read after it.  Neither inner arm
    runs when [yp] is [nan], and the variables then keep their values. *)
Definition get_Xs (rho T yp : fl) : vec3 :=
  let npguess := (yp * rho / mamu_grams)%fl in
  let nnguess := ((1 - yp) * rho / mamu_grams)%fl in
  let mupguess := mu T npguess 1 in
  let munguess := mu T nnguess 1 in
  let mualphaguess := mualpha munguess mupguess in
  let '(mupguess, munguess, mualphaguess) :=
    if (mualphaguess >? munguess)%fl then
      if (yp <? 0.5)%fl then
        let npguess := (py_min 0.01 yp * rho / mamu_grams)%fl in
        let nnguess := (2 * (0.5 - yp) * rho / mamu_grams)%fl in
        let mupguess := mu T npguess 1 in
        let munguess := mu T nnguess 1 in
        let mualphaguess := mualpha munguess mupguess in
        (mupguess, munguess, mualphaguess)
      else if (yp >=? 0.5)%fl then
        let nnguess := (py_min 0.01 (1 - yp) * rho / mamu_grams)%fl in
        let npguess := (2 * (yp - 0.499) * rho / mamu_grams)%fl in
        let mupguess := mu T npguess 1 in
        let munguess := mu T nnguess 1 in
        let mualphaguess := mualpha munguess mupguess in
        (mupguess, munguess, mualphaguess)
      else (mupguess, munguess, mualphaguess)
    else (mupguess, munguess, mualphaguess) in
  let '(values0, values1, values2) :=
    fsolve (LS rho T yp) (mupguess, munguess, mualphaguess) in
  let Xp := X values0 1 rho T in
  let Xn := X values1 1 rho T in
  let Xa := X values2 4 rho T in
  (Xp, Xn, Xa).

End Solver.

(** *** The guess phase of [get_Xs], state by state *)

(** The five guess variables. *)
Record guess : Type := mkGuess {
  npguess : fl;
  nnguess : fl;
  mupguess : fl;
  munguess : fl;
  mualphaguess : fl
}.

(** Their values after the first five assignments ("start by assuming all N
    and P"). *)
Definition baseline_guess (rho T yp : fl) : guess :=
  let npguess := (yp * rho / mamu_grams)%fl in
  let nnguess := ((1 - yp) * rho / mamu_grams)%fl in
  let mupguess := mu T npguess 1 in
  let munguess := mu T nnguess 1 in
  let mualphaguess := mualpha munguess mupguess in
  mkGuess npguess nnguess mupguess munguess mualphaguess.

(** Their values after the body of [if mualphaguess>munguess:], when one of
    its two arms runs. *)
Definition alpha_guess (rho T yp : fl) : option guess :=
  if (yp <? 0.5)%fl then
    let npguess := (py_min 0.01 yp * rho / mamu_grams)%fl in
    let nnguess := (2 * (0.5 - yp) * rho / mamu_grams)%fl in
    let mupguess := mu T npguess 1 in
    let munguess := mu T nnguess 1 in
    let mualphaguess := mualpha munguess mupguess in
    Some (mkGuess npguess nnguess mupguess munguess mualphaguess)
  else if (yp >=? 0.5)%fl then
    let nnguess := (py_min 0.01 (1 - yp) * rho / mamu_grams)%fl in
    let npguess := (2 * (yp - 0.499) * rho / mamu_grams)%fl in
    let mupguess := mu T npguess 1 in
    let munguess := mu T nnguess 1 in
    let mualphaguess := mualpha munguess mupguess in
    Some (mkGuess npguess nnguess mupguess munguess mualphaguess)
  else None.

(** The test [if mualphaguess>munguess:], made once, on the baseline guess. *)
Definition stiff (rho T yp : fl) : bool :=
  let g0 := baseline_guess rho T yp in
  (mualphaguess g0 >? munguess g0)%fl.

(** The successive values the guess variables take, in order: the baseline,
    then the recomputed guess when the test on the baseline succeeds. *)
Definition guess_states (rho T yp : fl) : list guess :=
  let g0 := baseline_guess rho T yp in
  if stiff rho T yp then
    match alpha_guess rho T yp with
    | Some g1 => [g0; g1]
    | None => [g0]
    end
  else [g0].

(** The values of the guess variables when [fsolve] is called, and the seed
    made of them. *)
Definition final_guess (rho T yp : fl) : guess :=
  last (guess_states rho T yp) (baseline_guess rho T yp).

Definition seed_of (g : guess) : vec3 :=
  (mupguess g, munguess g, mualphaguess g).

(** *** Calling [get_Xs] *)

(** The failures the specification distinguishes. *)
Inductive error : Type :=
| DomainError
| NonConvergenceError
| NumericOverflow.

Inductive py_result : Type :=
| Returns (v : vec3)
| Raises (e : error).

(** The body of [get_Xs] has no [raise] and tests none of its arguments,
    and the numpy operations signal with warnings: a call runs the body to
    its [return]. *)
Definition call_get_Xs (fsolve : (vec3 -> vec3) -> vec3 -> vec3)
    (rho T yp : fl) : py_result :=
  Returns (get_Xs fsolve rho T yp).

(** ** The formulas of the specification, over the reals *)

Definition quantumConcentration (T A : R) : R :=
  Rpower (2 * PI * T * A * 931.494103 / (1.24e-10) ^ 2) 1.5.

Definition massFractionFromPotential (mu A rho T : R) : R :=
  (A / (rho * 6.02214076e23)) * quantumConcentration T A * exp (mu / T).

Definition potentialFromNumberDensity (T n A : R) : R :=
  T * ln (n / quantumConcentration T A).

Definition alphaPotentialFromConstituents (mu_n mu_p : R) : R :=
  2 * mu_n + 2 * mu_p + 28.3.


(** ** Vocabulary of the statements *)

(** A guess all of whose number densities are positive reals, so that both
    logarithms are taken of positive numbers and the three potentials are
    the finite values of the real formulas. *)
Definition guess_defined (T : R) (g : guess) : Prop :=
  exists n_p n_n : R,
    npguess g = Fin n_p /\ nnguess g = Fin n_n /\
    0 < n_p /\ 0 < n_n /\
    0 < n_p / quantumConcentration T 1 /\
    0 < n_n / quantumConcentration T 1 /\
    mupguess g = Fin (potentialFromNumberDensity T n_p 1) /\
    munguess g = Fin (potentialFromNumberDensity T n_n 1) /\
    mualphaguess g
    = Fin (alphaPotentialFromConstituents
             (potentialFromNumberDensity T n_n 1)
             (potentialFromNumberDensity T n_p 1)).

Definition finite3 (v : vec3) : Prop :=
  exists a b c : R, v = (Fin a, Fin b, Fin c).

(** The root-finder's answer to the call made by [get_Xs rho T yp] is a triple
    of finite potentials [(mu_p, mu_n, mu_alpha)]. *)
Definition solved_at (fsolve : (vec3 -> vec3) -> vec3 -> vec3)
    (rho T : R) (yp : fl) (mu_p mu_n mu_alpha : R) : Prop :=
  fsolve (LS rho T yp) (seed_of (final_guess rho T yp))
  = (Fin mu_p, Fin mu_n, Fin mu_alpha).

(** ... and the three residuals vanish there. *)
Definition exact_root (fsolve : (vec3 -> vec3) -> vec3 -> vec3)
    (rho T yp : R) : Prop :=
  exists mu_p mu_n mu_alpha : R,
    solved_at fsolve rho T yp mu_p mu_n mu_alpha /\
    LS rho T yp (Fin mu_p, Fin mu_n, Fin mu_alpha) = (Fin 0, Fin 0, Fin 0).

Definition swap12 (v : vec3) : vec3 :=
  let '(a, b, c) := v in (b, a, c).

(** A root-finder that makes no progress and hands back its starting point,
    which is what [fsolve] returns of an unsuccessful call that never left
    the seed. *)
Definition fsolve_stalled (func : vec3 -> vec3) (x0 : vec3) : vec3 := x0.

(** A state point whose equilibrium is known in closed form: at [T = 1] the
    potentials [(0, 1, 30.3)] solve the system for the density [rho_demo] and
    the proton fraction [yp_demo], and [(1, 0, 30.3)] solves it for
    [1 - yp_demo]. *)
Definition demo_nucleon : R := quantumConcentration 1 1.
Definition demo_alpha : R := 4 * quantumConcentration 1 4 * exp 30.3.
Definition demo_total : R := demo_nucleon + demo_nucleon * exp 1 + demo_alpha.
Definition rho_demo : R := demo_total / 6.02214076e23.
Definition yp_demo : R := (demo_nucleon + demo_alpha / 2) / demo_total.

(** A root-finder that answers the two calls made at that state point with
    their exact roots; it tells them apart by the sign of the second residual
    at [(0, 1, 30.3)]. *)
Definition fsolve_demo (func : vec3 -> vec3) (x0 : vec3) : vec3 :=
  let '(_, r2, _) := func (Fin 0, Fin 1, Fin 30.3) in
  if (0 <? r2)%fl then (Fin 1, Fin 0, Fin 30.3) else (Fin 0, Fin 1, Fin 30.3).

(** ** The rest of the notebook *)

(** *** Species tables, in the order neutron, proton, alpha *)

Module Species.

Definition A : list fl := [Fin 1; Fin 1; Fin 4].
Definition Z : list fl := [Fin 0; Fin 1; Fin 2].
Definition B : list fl := [Fin 0; Fin 0; Fin 28.3].

End Species.

(** *** [check_state] *)

(** [check_state] prints one line; the model returns the four numbers of
    that line.  Its third parameter is named [mualpha] in the source and hides
    the function of that name. *)
Definition check_state (mun mup mualpha rho T : fl) : list fl :=
  let Xp := X mup 1 rho T in
  let Xn := X mun 1 rho T in
  let Xa := X mualpha 1 rho T in
  [Xp; Xn; Xa; (Xp + Xn + Xa)%fl].

(** *** The two sweep cells *)

(** [np.linspace(start, stop, num)]: [num] evenly spaced samples,
    [start + i * (stop - start) / (num - 1)]. *)
Definition np_linspace (start stop : R) (num : nat) : list fl :=
  map (fun i : nat => Fin (start + INR i * ((stop - start) / INR (num - 1))))
      (seq 0 num).

(** [np.zeros(n).reshape(n)] *)
Definition np_zeros (n : nat) : list fl := repeat (Fin 0) n.

(** [a[i] = v] for [i >= 0]: an index past the end is an [IndexError]
    ([None]). *)
Definition setitem (a : list fl) (i : nat) (v : fl) : option (list fl) :=
  if Nat.ltb i (length a) then Some (firstn i a ++ v :: skipn (S i) a)
  else None.

(** The variables a sweep cell updates: the three arrays and [count]. *)
Definition sweep_state : Type := list fl * list fl * list fl * nat.

(** One turn of the loop body
    [(Xps[count],Xns[count],Xalphas[count]) = <call>; count += 1]: the call
    is made first, then the three targets are assigned from left to right. *)
Definition sweep_step (call : fl -> vec3) (st : option sweep_state) (x : fl)
    : option sweep_state :=
  match st with
  | None => None
  | Some (Xps, Xns, Xalphas, count) =>
      let '(xp, xn, xa) := call x in
      match setitem Xps count xp with
      | None => None
      | Some Xps' =>
          match setitem Xns count xn with
          | None => None
          | Some Xns' =>
              match setitem Xalphas count xa with
              | None => None
              | Some Xalphas' => Some (Xps', Xns', Xalphas', S count)
              end
          end
      end
  end.

(** A sweep cell: arrays of [size] zeros, [count=0], then the loop. *)
Definition sweep (call : fl -> vec3) (size : nat) (xs : list fl)
    : option sweep_state :=
  fold_left (sweep_step call) xs
            (Some (np_zeros size, np_zeros size, np_zeros size, 0%nat)).

(** The cell with [rho=1e11], [yp = 0.25], [Ts = np.linspace(1,10,100)]. *)
Definition temperature_sweep (fsolve : (vec3 -> vec3) -> vec3 -> vec3)
    : option sweep_state :=
  sweep (fun T => get_Xs fsolve 1e11 T 0.25) 100 (np_linspace 1 10 100).

(** The cell with [rho=1e11], [T = 3.], [yps = np.linspace(0.001,0.999,100)]. *)
Definition proton_fraction_sweep (fsolve : (vec3 -> vec3) -> vec3 -> vec3)
    : option sweep_state :=
  sweep (fun yp => get_Xs fsolve 1e11 3 yp) 100 (np_linspace 0.001 0.999 100).

(** The three components of a returned triple. *)
Definition vec_p (v : vec3) : fl := fst (fst v).
Definition vec_n (v : vec3) : fl := snd (fst v).
Definition vec_alpha (v : vec3) : fl := snd v.

(** ** The range of binary64 *)

(** The operations above are exact on real operands.  In binary64 a result
    of magnitude at most [2^-1075] is flushed to zero and one of magnitude at
    least [2^1024 - 2^970] becomes an infinity.  [tiny] is a decimal just
    below the first bound and [huge] one just above the second, so [fit]
    flushes and saturates only where binary64 does.  Rounding inside the
    range is still not modelled. *)
Definition tiny : R := 2.47e-324.
Definition huge : R := 1.7976931348623159e308.

Definition fit (x : R) : fl :=
  if Rle_dec (Rabs x) tiny then Fin 0
  else if Rle_dec huge (Rabs x) then (if Rlt_dec 0 x then PInf else NInf)
  else Fin x.

Definition fit_fl (a : fl) : fl :=
  match a with
  | Fin x => fit x
  | _ => a
  end.

(** A difference of two floats overflows but never underflows to zero. *)
Definition saturate_fl (a : fl) : fl :=
  match a with
  | Fin x =>
      if Rle_dec huge (Rabs x) then (if Rlt_dec 0 x then PInf else NInf)
      else Fin x
  | _ => a
  end.

(** The operations [X], [mu] and the density guesses are made of, and two
    readings of them: the exact one used so far, and the one that keeps
    results within the range of binary64.  Where a plain Python float would
    raise (an overflowing [**], a division by a zero float) the second
    follows numpy as well; the statements made about it evaluate neither. *)
Record arith : Type := mkArith {
  ar_sub : fl -> fl -> fl;
  ar_mul : fl -> fl -> fl;
  ar_div : fl -> fl -> fl;
  ar_pow2 : fl -> fl;
  ar_pow1_5 : fl -> fl;
  ar_exp : fl -> fl;
  ar_log : fl -> fl
}.

Definition exact : arith :=
  mkArith fl_sub fl_mul fl_div pow2 pow1_5 np_exp np_log.

Definition binary64 : arith :=
  mkArith (fun a b => saturate_fl (a - b)%fl)
          (fun a b => fit_fl (a * b)%fl)
          (fun a b => fit_fl (a / b)%fl)
          (fun a => fit_fl (pow2 a))
          (fun a => fit_fl (pow1_5 a))
          (fun a => fit_fl (np_exp a))
          np_log.

Section Conversions.

Variable ar : arith.

Local Infix "-." := (ar_sub ar) (at level 50, left associativity).
Local Infix "*." := (ar_mul ar) (at level 40, left associativity).
Local Infix "/." := (ar_div ar) (at level 40, left associativity).

(** [X], [mu] and the first two assignments of [get_Xs], operation by
    operation as in the notebook, over the operations of [ar]. *)
Definition X_in (xmu xA xrho xT : fl) : fl :=
  let nQ := ar_pow1_5 ar (2 *. np_pi *. xT *. xA *. mamuc2 /. ar_pow2 ar hc) in
  xA /. (xrho *. Navo) *. nQ *. ar_exp ar (xmu /. xT).

Definition mu_in (T n A : fl) : fl :=
  let nQ := ar_pow1_5 ar (2 *. np_pi *. T *. A *. mamuc2 /. ar_pow2 ar hc) in
  T *. ar_log ar (n /. nQ).

Definition baseline_densities_in (rho yp : fl) : fl * fl :=
  (yp *. rho /. mamu_grams, (1 -. yp) *. rho /. mamu_grams).

End Conversions.

Definition X64 : fl -> fl -> fl -> fl -> fl := X_in binary64.
Definition mu64 : fl -> fl -> fl -> fl := mu_in binary64.

(** A returned fraction that is neither negative nor [nan]. *)
Definition nonnegative (a : fl) : Prop :=
  a = PInf \/ exists x : R, a = Fin x /\ 0 <= x.

(** A guess whose two number densities are positive reals and whose three
    potentials are finite.  [np.log] is [-inf] at zero and [nan] below it, so
    finite potentials are logarithms of positive numbers. *)
Definition guess_positive (g : guess) : Prop :=
  exists n_p n_n m_p m_n m_a : R,
    npguess g = Fin n_p /\ nnguess g = Fin n_n /\ 0 < n_p /\ 0 < n_n /\
    mupguess g = Fin m_p /\ munguess g = Fin m_n /\ mualphaguess g = Fin m_a.

(** * Proofs *)

(** ** Float operations on finite operands *)

Lemma fl_div_fin (x y : R) : y <> 0 -> (Fin x / Fin y)%fl = Fin (x / y).
Proof.
  intros Hy. unfold fl_div. destruct (Req_dec_T y 0) as [E | _]; [contradiction | reflexivity].
Qed.

Lemma pow1_5_fin (x : R) : 0 < x -> pow1_5 (Fin x) = Fin (Rpower x 1.5).
Proof.
  intros Hx. unfold pow1_5. destruct (Rlt_dec 0 x) as [_ | N]; [reflexivity | contradiction].
Qed.

Lemma np_log_fin (x : R) : 0 < x -> np_log (Fin x) = Fin (ln x).
Proof.
  intros Hx. unfold np_log. destruct (Rlt_dec 0 x) as [_ | N]; [reflexivity | contradiction].
Qed.

Lemma np_log_neg (x : R) : x < 0 -> np_log (Fin x) = NaN.
Proof.
  intros Hx. unfold np_log.
  destruct (Rlt_dec 0 x) as [P | _]; [lra |].
  destruct (Rlt_dec x 0) as [_ | N]; [reflexivity | contradiction].
Qed.

Lemma np_log_zero : np_log (Fin 0) = NInf.
Proof.
  unfold np_log.
  destruct (Rlt_dec 0 0) as [P | _]; [lra |].
  destruct (Rlt_dec 0 0) as [P | _]; [lra | reflexivity].
Qed.

Lemma fl_lt_fin (x y : R) : (Fin x <? Fin y)%fl = true <-> x < y.
Proof.
  simpl. unfold Rltb. destruct (Rlt_dec x y); split; intros; try assumption; try reflexivity; try discriminate.
  contradiction.
Qed.

Lemma fl_lt_fin_false (x y : R) : (Fin x <? Fin y)%fl = false <-> y <= x.
Proof.
  simpl. unfold Rltb. destruct (Rlt_dec x y); split; intros; try reflexivity; try discriminate; lra.
Qed.

Lemma fl_ge_fin (x y : R) : (Fin x >=? Fin y)%fl = true <-> y <= x.
Proof.
  unfold fl_ge. simpl. unfold Rleb. destruct (Rle_dec y x); split; intros; try assumption; try reflexivity; try discriminate.
  contradiction.
Qed.

Lemma fl_gt_fin (x y : R) : (Fin x >? Fin y)%fl = true <-> y < x.
Proof. unfold fl_gt. apply fl_lt_fin. Qed.

(** ** The quantum concentration *)

Lemma hc2_pos : 0 < 1.24e-10 * 1.24e-10.
Proof. lra. Qed.

Lemma nQ_base_pos (T A : R) :
  0 < T -> 0 < A -> 0 < 2 * PI * T * A * 931.494103 / (1.24e-10 * 1.24e-10).
Proof.
  intros HT HA. pose proof PI_RGT_0 as Hpi.
  apply Rdiv_lt_0_compat; [| exact hc2_pos].
  assert (H1 : 0 < 2 * PI * T) by (apply Rmult_lt_0_compat; lra).
  assert (H2 : 0 < 2 * PI * T * A) by (apply Rmult_lt_0_compat; assumption).
  apply Rmult_lt_0_compat; [assumption | lra].
Qed.

Lemma quantumConcentration_pos (T A : R) : 0 < quantumConcentration T A.
Proof. unfold quantumConcentration, Rpower. apply exp_pos. Qed.

(** The [nQ] computed in the first line of [X] and of [mu]. *)
Lemma nQ_fin (T A : R) :
  0 < T -> 0 < A ->
  pow1_5 (2 * np_pi * T * A * mamuc2 / pow2 hc) = Fin (quantumConcentration T A).
Proof.
  intros HT HA. unfold np_pi, mamuc2, hc, pow2. cbn [fl_mul].
  rewrite fl_div_fin by (apply Rgt_not_eq, hc2_pos).
  rewrite pow1_5_fin by (apply nQ_base_pos; assumption).
  unfold quantumConcentration. do 2 f_equal. simpl pow. rewrite Rmult_1_r. reflexivity.
Qed.

(** ** The conversions on finite, physical arguments *)

Lemma X_fin (xmu A rho T : R) :
  0 < A -> 0 < rho -> 0 < T ->
  X xmu A rho T = Fin (massFractionFromPotential xmu A rho T).
Proof.
  intros HA Hrho HT. unfold X. cbv zeta.
  rewrite nQ_fin by assumption.
  unfold Navo. cbn [fl_mul].
  rewrite (fl_div_fin A) by (apply Rgt_not_eq; apply Rmult_lt_0_compat; lra).
  rewrite (fl_div_fin xmu) by (apply Rgt_not_eq; assumption).
  reflexivity.
Qed.

Lemma mu_fin (T n A : R) :
  0 < T -> 0 < n -> 0 < A ->
  mu T n A = Fin (potentialFromNumberDensity T n A).
Proof.
  intros HT Hn HA. unfold mu. cbv zeta.
  rewrite nQ_fin by assumption.
  pose proof (quantumConcentration_pos T A) as HQ.
  rewrite fl_div_fin by (apply Rgt_not_eq; assumption).
  rewrite np_log_fin by (apply Rdiv_lt_0_compat; assumption).
  reflexivity.
Qed.

Lemma mualpha_fin (mun mup : R) :
  mualpha mun mup = Fin (alphaPotentialFromConstituents mun mup).
Proof. reflexivity. Qed.

Lemma massFraction_pos (xmu A rho T : R) :
  0 < A -> 0 < rho -> 0 < massFractionFromPotential xmu A rho T.
Proof.
  intros HA Hrho. unfold massFractionFromPotential.
  pose proof (quantumConcentration_pos T A) as HQ.
  pose proof (exp_pos (xmu / T)) as HE.
  assert (HN : 0 < rho * 6.02214076e23) by (apply Rmult_lt_0_compat; lra).
  assert (HD : 0 < A / (rho * 6.02214076e23)) by (apply Rdiv_lt_0_compat; assumption).
  apply Rmult_lt_0_compat; [apply Rmult_lt_0_compat |]; assumption.
Qed.

(** Going from a number density to a potential and back gives the mass
    fraction of that number density. *)
Lemma massFraction_of_potential (T n A rho : R) :
  0 < T -> 0 < n -> 0 < rho ->
  massFractionFromPotential (potentialFromNumberDensity T n A) A rho T
  = A * n / (rho * 6.02214076e23).
Proof.
  intros HT Hn Hrho.
  unfold massFractionFromPotential, potentialFromNumberDensity.
  pose proof (quantumConcentration_pos T A) as HQ.
  set (Q := quantumConcentration T A) in *.
  replace (T * ln (n / Q) / T) with (ln (n / Q)) by (field; lra).
  rewrite exp_ln by (apply Rdiv_lt_0_compat; assumption).
  field. split; lra.
Qed.

Lemma massFraction_increasing (mu1 mu2 A rho T : R) :
  0 < A -> 0 < rho -> 0 < T -> mu1 < mu2 ->
  massFractionFromPotential mu1 A rho T < massFractionFromPotential mu2 A rho T.
Proof.
  intros HA Hrho HT Hlt. unfold massFractionFromPotential.
  pose proof (quantumConcentration_pos T A) as HQ.
  assert (HN : 0 < rho * 6.02214076e23) by (apply Rmult_lt_0_compat; lra).
  assert (HD : 0 < A / (rho * 6.02214076e23)) by (apply Rdiv_lt_0_compat; assumption).
  apply Rmult_lt_compat_l; [apply Rmult_lt_0_compat; assumption |].
  apply exp_increasing.
  apply Rmult_lt_compat_r; [apply Rinv_0_lt_compat; assumption | assumption].
Qed.

Lemma LS_fin (rho T yp mu_p mu_n mu_alpha : R) :
  0 < rho -> 0 < T ->
  LS rho T yp (Fin mu_p, Fin mu_n, Fin mu_alpha)
  = (Fin (1 - massFractionFromPotential mu_p 1 rho T
            - massFractionFromPotential mu_n 1 rho T
            - massFractionFromPotential mu_alpha 4 rho T),
     Fin (yp - massFractionFromPotential mu_p 1 rho T
             - massFractionFromPotential mu_alpha 4 rho T / 2),
     Fin (mu_alpha - (2 * mu_n + 2 * mu_p + 28.3))).
Proof.
  intros Hrho HT. unfold LS.
  rewrite !X_fin by lra.
  rewrite mualpha_fin. unfold alphaPotentialFromConstituents.
  cbn [fl_sub fl_add fl_opp].
  rewrite fl_div_fin by lra.
  reflexivity.
Qed.

(** ** Guess construction on real inputs *)

Lemma py_min_fin (a b : R) : py_min a b = Fin (Rmin a b).
Proof.
  unfold py_min, Rmin. cbn [fl_lt]. unfold Rltb.
  destruct (Rlt_dec b a) as [L | L], (Rle_dec a b) as [M | M];
    try reflexivity; f_equal; lra.
Qed.

Lemma density_fin (c rho : R) :
  (Fin c * Fin rho / mamu_grams)%fl = Fin (c * rho / 1.66053907e-24).
Proof. unfold mamu_grams. cbn [fl_mul]. apply fl_div_fin. lra. Qed.

Lemma baseline_guess_fin (rho yp : R) (T : fl) :
  baseline_guess rho T yp
  = let n_p := yp * rho / 1.66053907e-24 in
    let n_n := (1 - yp) * rho / 1.66053907e-24 in
    mkGuess n_p n_n (mu T n_p 1) (mu T n_n 1)
            (mualpha (mu T n_n 1) (mu T n_p 1)).
Proof.
  unfold baseline_guess. cbv zeta.
  replace (1 - Fin yp)%fl with (Fin (1 - yp)) by reflexivity.
  rewrite !density_fin. reflexivity.
Qed.

Lemma alpha_guess_below (rho yp : R) (T : fl) :
  yp < 0.5 ->
  alpha_guess rho T yp
  = let n_p := Rmin 0.01 yp * rho / 1.66053907e-24 in
    let n_n := 2 * (0.5 - yp) * rho / 1.66053907e-24 in
    Some (mkGuess n_p n_n (mu T n_p 1) (mu T n_n 1)
                  (mualpha (mu T n_n 1) (mu T n_p 1))).
Proof.
  intros Hlt. unfold alpha_guess.
  assert (E : (Fin yp <? 0.5)%fl = true) by (apply fl_lt_fin; exact Hlt).
  rewrite E. cbv zeta.
  rewrite py_min_fin.
  replace (2 * (0.5 - Fin yp))%fl with (Fin (2 * (0.5 - yp))) by reflexivity.
  rewrite !density_fin. reflexivity.
Qed.

Lemma alpha_guess_above (rho yp : R) (T : fl) :
  0.5 <= yp ->
  alpha_guess rho T yp
  = let n_n := Rmin 0.01 (1 - yp) * rho / 1.66053907e-24 in
    let n_p := 2 * (yp - 0.499) * rho / 1.66053907e-24 in
    Some (mkGuess n_p n_n (mu T n_p 1) (mu T n_n 1)
                  (mualpha (mu T n_n 1) (mu T n_p 1))).
Proof.
  intros Hge. unfold alpha_guess.
  assert (E : (Fin yp <? 0.5)%fl = false) by (apply fl_lt_fin_false; exact Hge).
  assert (F : (Fin yp >=? 0.5)%fl = true) by (apply fl_ge_fin; exact Hge).
  rewrite E, F. cbv zeta.
  replace (1 - Fin yp)%fl with (Fin (1 - yp)) by reflexivity.
  rewrite py_min_fin.
  replace (2 * (Fin yp - 0.499))%fl with (Fin (2 * (yp - 0.499))) by reflexivity.
  rewrite !density_fin. reflexivity.
Qed.

Lemma guess_states_unfold (rho T yp : fl) :
  guess_states rho T yp
  = if stiff rho T yp
    then match alpha_guess rho T yp with
         | Some g1 => [baseline_guess rho T yp; g1]
         | None => [baseline_guess rho T yp]
         end
    else [baseline_guess rho T yp].
Proof. reflexivity. Qed.

Lemma density_pos (c rho : R) : 0 < c -> 0 < rho -> 0 < c * rho / 1.66053907e-24.
Proof.
  intros Hc Hrho. apply Rdiv_lt_0_compat; [apply Rmult_lt_0_compat; assumption | lra].
Qed.

Lemma guess_defined_intro (T n_p n_n : R) :
  0 < T -> 0 < n_p -> 0 < n_n ->
  guess_defined T (mkGuess n_p n_n (mu T n_p 1) (mu T n_n 1)
                           (mualpha (mu T n_n 1) (mu T n_p 1))).
Proof.
  intros HT Hp Hn. exists n_p, n_n.
  pose proof (quantumConcentration_pos T 1) as HQ.
  rewrite !mu_fin by lra. rewrite mualpha_fin. cbn.
  repeat split; try assumption; apply Rdiv_lt_0_compat; assumption.
Qed.

Lemma baseline_defined (rho T yp : R) :
  0 < rho -> 0 < T -> 0 < yp < 1 ->
  guess_defined T (baseline_guess rho T yp).
Proof.
  intros Hrho HT [Hy0 Hy1]. rewrite baseline_guess_fin. cbv zeta.
  apply guess_defined_intro; [assumption | |]; apply density_pos; lra.
Qed.

Lemma alpha_guess_defined (rho T yp : R) (g1 : guess) :
  0 < rho -> 0 < T -> 0 < yp < 1 ->
  alpha_guess rho T yp = Some g1 -> guess_defined T g1.
Proof.
  intros Hrho HT [Hy0 Hy1] E.
  destruct (Rlt_le_dec yp 0.5) as [L | G].
  - rewrite alpha_guess_below in E by exact L. cbv zeta in E.
    injection E as <-.
    apply guess_defined_intro; [assumption | |]; apply density_pos; try lra.
    apply Rmin_glb_lt; lra.
  - rewrite alpha_guess_above in E by exact G. cbv zeta in E.
    injection E as <-.
    apply guess_defined_intro; [assumption | |]; apply density_pos; try lra.
    apply Rmin_glb_lt; lra.
Qed.

Lemma guess_states_defined (rho T yp : R) :
  0 < rho -> 0 < T -> 0 < yp < 1 ->
  Forall (guess_defined T) (guess_states rho T yp).
Proof.
  intros Hrho HT Hyp. rewrite guess_states_unfold.
  pose proof (baseline_defined rho T yp Hrho HT Hyp) as H0.
  destruct (stiff rho T yp).
  - destruct (alpha_guess rho T yp) as [g1 |] eqn:E.
    + repeat constructor; [exact H0 |].
      apply (alpha_guess_defined rho T yp); assumption.
    + repeat constructor. exact H0.
  - repeat constructor. exact H0.
Qed.

Lemma final_guess_defined (rho T yp : R) :
  0 < rho -> 0 < T -> 0 < yp < 1 ->
  guess_defined T (final_guess rho T yp).
Proof.
  intros Hrho HT Hyp. unfold final_guess.
  pose proof (guess_states_defined rho T yp Hrho HT Hyp) as HF.
  pose proof (baseline_defined rho T yp Hrho HT Hyp) as H0.
  rewrite Forall_forall in HF.
  rewrite guess_states_unfold in *.
  destruct (stiff rho T yp).
  - destruct (alpha_guess rho T yp) as [g1 |]; cbn [last].
    + apply HF. right. left. reflexivity.
    + exact H0.
  - exact H0.
Qed.

(** ** From the root-finder's answer to the returned fractions *)

(** [get_Xs] seeds the root-finder with the last of [guess_states]. *)
Lemma get_Xs_seed (fsolve : (vec3 -> vec3) -> vec3 -> vec3) (rho T yp : fl) :
  get_Xs fsolve rho T yp
  = (let '(values0, values1, values2) :=
       fsolve (LS rho T yp) (seed_of (final_guess rho T yp)) in
     (X values0 1 rho T, X values1 1 rho T, X values2 4 rho T)).
Proof.
  unfold get_Xs, final_guess, guess_states, stiff, alpha_guess, baseline_guess, seed_of.
  cbv zeta. cbn [mupguess munguess mualphaguess].
  destruct (mualpha (mu T ((1 - yp) * rho / mamu_grams) 1) (mu T (yp * rho / mamu_grams) 1)
            >? mu T ((1 - yp) * rho / mamu_grams) 1)%fl;
    [destruct (yp <? 0.5)%fl; [| destruct (yp >=? 0.5)%fl] |]; reflexivity.
Qed.

Lemma get_Xs_solved (fsolve : (vec3 -> vec3) -> vec3 -> vec3)
    (rho T : R) (yp : fl) (mu_p mu_n mu_alpha : R) :
  0 < rho -> 0 < T ->
  solved_at fsolve rho T yp mu_p mu_n mu_alpha ->
  get_Xs fsolve rho T yp
  = (Fin (massFractionFromPotential mu_p 1 rho T),
     Fin (massFractionFromPotential mu_n 1 rho T),
     Fin (massFractionFromPotential mu_alpha 4 rho T)).
Proof.
  intros Hrho HT Hs. unfold solved_at in Hs. rewrite get_Xs_seed.
  rewrite Hs. rewrite !X_fin by lra. reflexivity.
Qed.

Lemma get_Xs_stalled (rho T yp : fl) :
  get_Xs fsolve_stalled rho T yp
  = (X (mupguess (final_guess rho T yp)) 1 rho T,
     X (munguess (final_guess rho T yp)) 1 rho T,
     X (mualphaguess (final_guess rho T yp)) 4 rho T).
Proof. rewrite get_Xs_seed. reflexivity. Qed.

Lemma X_mu_fin (T n A rho : R) :
  0 < T -> 0 < n -> 0 < A -> 0 < rho ->
  X (mu T n A) A rho T = Fin (A * n / (rho * 6.02214076e23)).
Proof.
  intros HT Hn HA Hrho.
  rewrite mu_fin, X_fin by assumption.
  rewrite massFraction_of_potential by assumption. reflexivity.
Qed.

(** What the recovery step makes of a guess built from positive densities:
    the nucleon fractions are those of the guessed densities. *)
Lemma recovery_of_guess (rho T n_p n_n : R) :
  0 < rho -> 0 < T -> 0 < n_p -> 0 < n_n ->
  exists Xa : R,
    0 < Xa /\
    (X (mu T n_p 1) 1 rho T,
     X (mu T n_n 1) 1 rho T,
     X (mualpha (mu T n_n 1) (mu T n_p 1)) 4 rho T)
    = (Fin (1 * n_p / (rho * 6.02214076e23)),
       Fin (1 * n_n / (rho * 6.02214076e23)),
       Fin Xa).
Proof.
  intros Hrho HT Hp Hn.
  exists (massFractionFromPotential
            (alphaPotentialFromConstituents
               (potentialFromNumberDensity T n_n 1)
               (potentialFromNumberDensity T n_p 1)) 4 rho T).
  split; [apply massFraction_pos; lra |].
  rewrite !X_mu_fin by lra.
  rewrite !mu_fin by lra. rewrite mualpha_fin, X_fin by lra. reflexivity.
Qed.

(** ** When the recomputation is taken *)

Lemma stiff_true (rho T yp : R) :
  0 < rho -> 0 < T -> 0 < yp < 1 ->
  0 < potentialFromNumberDensity T ((1 - yp) * rho / 1.66053907e-24) 1
      + 2 * potentialFromNumberDensity T (yp * rho / 1.66053907e-24) 1 + 28.3 ->
  stiff rho T yp = true.
Proof.
  intros Hrho HT [Hy0 Hy1] H. unfold stiff. rewrite baseline_guess_fin. cbv zeta.
  cbn [mualphaguess munguess].
  rewrite !mu_fin by (try apply density_pos; lra).
  rewrite mualpha_fin. apply fl_gt_fin. unfold alphaPotentialFromConstituents. lra.
Qed.

Lemma final_guess_stiff (rho T yp : fl) (g1 : guess) :
  stiff rho T yp = true -> alpha_guess rho T yp = Some g1 ->
  final_guess rho T yp = g1.
Proof.
  intros Hs Ha. unfold final_guess. rewrite guess_states_unfold, Hs, Ha. reflexivity.
Qed.

Lemma final_guess_not_stiff (rho T yp : fl) :
  stiff rho T yp = false -> final_guess rho T yp = baseline_guess rho T yp.
Proof.
  intros Hs. unfold final_guess. rewrite guess_states_unfold, Hs. reflexivity.
Qed.

(** ** Real analysis behind the counterexamples *)

Lemma ln_lower_bound (x : R) : 0 < x -> 1 - / x <= ln x.
Proof.
  intros Hx. pose proof (exp_ineq1_le (- ln x)) as H.
  rewrite exp_Ropp, exp_ln in H by assumption. lra.
Qed.

Lemma potential_lower_bound (T n Qub : R) :
  0 < T -> 0 < n -> quantumConcentration T 1 <= Qub ->
  T * (1 - Qub / n) <= potentialFromNumberDensity T n 1.
Proof.
  intros HT Hn HQ. unfold potentialFromNumberDensity.
  pose proof (quantumConcentration_pos T 1) as Hpos.
  set (Q := quantumConcentration T 1) in *.
  assert (Hx : 0 < n / Q) by (apply Rdiv_lt_0_compat; assumption).
  pose proof (ln_lower_bound (n / Q) Hx) as HL.
  replace (/ (n / Q)) with (Q / n) in HL by (field; split; lra).
  assert (HD : Q / n <= Qub / n).
  { apply Rmult_le_compat_r; [left; apply Rinv_0_lt_compat; assumption | assumption]. }
  apply Rmult_le_compat_l; lra.
Qed.

Lemma Rpower_square_1_5 (s : R) : 0 < s -> Rpower (s * s) 1.5 = s * s * s.
Proof.
  intros Hs. unfold Rpower. rewrite ln_mult by assumption.
  replace (1.5 * (ln s + ln s)) with (ln s + ln s + ln s) by lra.
  rewrite !exp_plus, exp_ln by assumption. reflexivity.
Qed.

(** At [T = 0.01] MeV the nucleon quantum concentration is below
    [3.43e32] per cubic centimetre (from [PI <= 4]). *)
Lemma quantumConcentration_cold : quantumConcentration 0.01 1 <= 3.43e32.
Proof.
  unfold quantumConcentration.
  replace 3.43e32 with (Rpower (7e10 * 7e10) 1.5) by (rewrite Rpower_square_1_5; lra).
  apply Rle_Rpower_l; [lra |].
  pose proof PI_RGT_0 as H0. pose proof PI_4 as H4.
  split.
  - replace ((1.24e-10) ^ 2) with (1.24e-10 * 1.24e-10) by ring.
    apply nQ_base_pos; lra.
  - lra.
Qed.

(** At [rho = 1e11], [T = 0.01] the baseline guess fails the test for every
    proton fraction between 0.001 and 0.999: the recomputation is taken. *)
Lemma stiff_cold (yp : R) :
  0.001 <= yp <= 0.999 -> stiff 1e11 0.01 yp = true.
Proof.
  intros [Hlo Hhi]. apply stiff_true; try lra.
  assert (Hn : 6e31 <= (1 - yp) * 1e11 / 1.66053907e-24) by lra.
  assert (Hp : 6e31 <= yp * 1e11 / 1.66053907e-24) by lra.
  assert (Bn := potential_lower_bound 0.01 ((1 - yp) * 1e11 / 1.66053907e-24) 3.43e32).
  assert (Bp := potential_lower_bound 0.01 (yp * 1e11 / 1.66053907e-24) 3.43e32).
  specialize (Bn ltac:(lra) ltac:(lra) quantumConcentration_cold).
  specialize (Bp ltac:(lra) ltac:(lra) quantumConcentration_cold).
  set (nn := (1 - yp) * 1e11 / 1.66053907e-24) in *.
  set (np := yp * 1e11 / 1.66053907e-24) in *.
  assert (Qn : 3.43e32 / nn <= 6).
  { apply Rmult_le_reg_r with nn; [lra |]. unfold Rdiv. rewrite Rmult_assoc, Rinv_l by lra. lra. }
  assert (Qp : 3.43e32 / np <= 6).
  { apply Rmult_le_reg_r with np; [lra |]. unfold Rdiv. rewrite Rmult_assoc, Rinv_l by lra. lra. }
  lra.
Qed.

(** ** The equilibrium equations over the reals *)

(** The NSE relation in terms of mass fractions: with
    [mu_alpha = 2 mu_n + 2 mu_p + 28.3] the alpha fraction is a fixed positive
    multiple of [Xp^2 * Xn^2]. *)
Lemma alpha_fraction_law (rho T : R) :
  0 < rho -> 0 < T ->
  exists K : R,
    0 < K /\
    forall mu_p mu_n : R,
      massFractionFromPotential (2 * mu_n + 2 * mu_p + 28.3) 4 rho T
      = K * (massFractionFromPotential mu_p 1 rho T) ^ 2
          * (massFractionFromPotential mu_n 1 rho T) ^ 2.
Proof.
  intros Hrho HT.
  pose proof (quantumConcentration_pos T 1) as H1.
  pose proof (quantumConcentration_pos T 4) as H4.
  set (Q1 := quantumConcentration T 1) in *.
  set (Q4 := quantumConcentration T 4) in *.
  assert (HN : 0 < rho * 6.02214076e23) by (apply Rmult_lt_0_compat; lra).
  set (c1 := 1 / (rho * 6.02214076e23) * Q1).
  set (c4 := 4 / (rho * 6.02214076e23) * Q4).
  assert (Hc1 : 0 < c1).
  { unfold c1. apply Rmult_lt_0_compat; [apply Rdiv_lt_0_compat; lra | assumption]. }
  assert (Hc4 : 0 < c4).
  { unfold c4. apply Rmult_lt_0_compat; [apply Rdiv_lt_0_compat; lra | assumption]. }
  assert (Hc14 : 0 < c1 ^ 4) by (apply pow_lt; assumption).
  exists (c4 * exp (28.3 / T) / c1 ^ 4). split.
  - apply Rdiv_lt_0_compat; [| assumption].
    apply Rmult_lt_0_compat; [assumption | apply exp_pos].
  - intros mu_p mu_n. unfold massFractionFromPotential. fold Q1 Q4 c1 c4.
    replace ((2 * mu_n + 2 * mu_p + 28.3) / T)
      with (mu_n / T + mu_n / T + (mu_p / T + mu_p / T) + 28.3 / T) by (field; lra).
    rewrite !exp_plus. field. lra.
Qed.

(** The fixed-point equation for the alpha fraction has at most one
    solution that leaves both nucleon fractions positive. *)
Lemma equilibrium_unique (K yp a a' : R) :
  0 < K ->
  0 < yp - a / 2 -> 0 < 1 - yp - a / 2 ->
  a = K * (yp - a / 2) ^ 2 * (1 - yp - a / 2) ^ 2 ->
  0 < yp - a' / 2 -> 0 < 1 - yp - a' / 2 ->
  a' = K * (yp - a' / 2) ^ 2 * (1 - yp - a' / 2) ^ 2 ->
  a = a'.
Proof.
  intros HK Hp Hn Ha Hp' Hn' Ha'.
  assert (mono : forall u v : R,
             0 < yp - v / 2 -> 0 < 1 - yp - v / 2 -> u < v ->
             K * (yp - v / 2) ^ 2 * (1 - yp - v / 2) ^ 2
             < K * (yp - u / 2) ^ 2 * (1 - yp - u / 2) ^ 2).
  { intros u v Hv1 Hv2 Huv.
    set (p := yp - u / 2). set (n := 1 - yp - u / 2).
    set (p' := yp - v / 2) in *. set (n' := 1 - yp - v / 2) in *.
    assert (Hpp : p' < p) by (unfold p, p'; lra).
    assert (Hnn : n' < n) by (unfold n, n'; lra).
    assert (Hprod : p' * n' < p * n) by nra.
    assert (Hpos : 0 < p' * n') by (apply Rmult_lt_0_compat; assumption).
    assert (Hsq : (p' * n') * (p' * n') < (p * n) * (p * n)) by nra.
    replace (K * p' ^ 2 * n' ^ 2) with (K * ((p' * n') * (p' * n'))) by ring.
    replace (K * p ^ 2 * n ^ 2) with (K * ((p * n) * (p * n))) by ring.
    apply Rmult_lt_compat_l; assumption. }
  destruct (Rtotal_order a a') as [L | [E | G]].
  - pose proof (mono a a' Hp' Hn' L). lra.
  - exact E.
  - pose proof (mono a' a Hp Hn G). lra.
Qed.

(** ** The state point solved in closed form *)

Lemma demo_nucleon_pos : 0 < demo_nucleon.
Proof. apply quantumConcentration_pos. Qed.

Lemma demo_alpha_pos : 0 < demo_alpha.
Proof.
  unfold demo_alpha. pose proof (quantumConcentration_pos 1 4). pose proof (exp_pos 30.3).
  apply Rmult_lt_0_compat; [lra | assumption].
Qed.

Lemma exp_1_gt_1 : 1 < exp 1.
Proof. pose proof (exp_ineq1 1 ltac:(lra)). lra. Qed.

Lemma demo_total_pos : 0 < demo_total.
Proof.
  unfold demo_total. pose proof demo_nucleon_pos. pose proof demo_alpha_pos.
  pose proof exp_1_gt_1. nra.
Qed.

Lemma rho_demo_pos : 0 < rho_demo.
Proof. unfold rho_demo. apply Rdiv_lt_0_compat; [apply demo_total_pos | lra]. Qed.

Lemma yp_demo_range : 0 < yp_demo < 1.
Proof.
  unfold yp_demo. pose proof demo_nucleon_pos. pose proof demo_alpha_pos.
  pose proof demo_total_pos as Ht. pose proof exp_1_gt_1.
  split.
  - apply Rdiv_lt_0_compat; lra.
  - apply Rmult_lt_reg_r with demo_total; [assumption |].
    unfold Rdiv. rewrite Rmult_assoc, Rinv_l by lra.
    unfold demo_total in *. nra.
Qed.

Lemma demo_fraction (xmu A : R) :
  massFractionFromPotential xmu A rho_demo 1
  = A * quantumConcentration 1 A * exp xmu / demo_total.
Proof.
  unfold massFractionFromPotential, rho_demo. pose proof demo_total_pos.
  replace (xmu / 1) with xmu by field. field. lra.
Qed.

Lemma demo_root :
  LS rho_demo 1 yp_demo (Fin 0, Fin 1, Fin 30.3) = (Fin 0, Fin 0, Fin 0).
Proof.
  rewrite LS_fin by (try apply rho_demo_pos; lra).
  rewrite !demo_fraction. rewrite exp_0.
  fold demo_nucleon. pose proof demo_total_pos.
  replace (4 * quantumConcentration 1 4 * exp 30.3) with demo_alpha by reflexivity.
  f_equal; [f_equal |]; f_equal.
  - unfold demo_total in *. field. lra.
  - unfold yp_demo. field. lra.
  - lra.
Qed.

Lemma demo_root_mirror :
  LS rho_demo 1 (Fin (1 - yp_demo)) (Fin 1, Fin 0, Fin 30.3) = (Fin 0, Fin 0, Fin 0).
Proof.
  rewrite LS_fin by (try apply rho_demo_pos; lra).
  rewrite !demo_fraction. rewrite exp_0.
  fold demo_nucleon. pose proof demo_total_pos.
  replace (4 * quantumConcentration 1 4 * exp 30.3) with demo_alpha by reflexivity.
  f_equal; [f_equal |]; f_equal.
  - unfold demo_total in *. field. lra.
  - unfold yp_demo. unfold demo_total in *. field. lra.
  - lra.
Qed.

Lemma fsolve_demo_direct (x0 : vec3) :
  fsolve_demo (LS rho_demo 1 yp_demo) x0 = (Fin 0, Fin 1, Fin 30.3).
Proof.
  unfold fsolve_demo. rewrite demo_root.
  assert (E : (Fin 0 <? Fin 0)%fl = false) by (apply fl_lt_fin_false; lra).
  rewrite E. reflexivity.
Qed.

Lemma fsolve_demo_mirror (x0 : vec3) :
  fsolve_demo (LS rho_demo 1 (Fin (1 - yp_demo))) x0 = (Fin 1, Fin 0, Fin 30.3).
Proof.
  unfold fsolve_demo.
  rewrite LS_fin by (try apply rho_demo_pos; lra).
  rewrite !demo_fraction. rewrite exp_0.
  fold demo_nucleon. pose proof demo_total_pos. pose proof demo_nucleon_pos.
  pose proof exp_1_gt_1.
  replace (4 * quantumConcentration 1 4 * exp 30.3) with demo_alpha by reflexivity.
  match goal with
  | |- (if (Fin 0 <? Fin ?r)%fl then _ else _) = _ =>
      assert (E : (Fin 0 <? Fin r)%fl = true)
  end.
  { apply fl_lt_fin.
    replace (1 - yp_demo - 1 * demo_nucleon * 1 / demo_total - demo_alpha / demo_total / 2)
      with (demo_nucleon * (exp 1 - 1) / demo_total)
      by (unfold yp_demo, demo_total in *; field; lra).
    apply Rdiv_lt_0_compat; [nra | assumption]. }
  rewrite E. reflexivity.
Qed.

Lemma exact_root_demo : exact_root fsolve_demo rho_demo 1 yp_demo.
Proof.
  exists 0, 1, 30.3. split; [apply fsolve_demo_direct | apply demo_root].
Qed.

Lemma exact_root_demo_mirror : exact_root fsolve_demo rho_demo 1 (1 - yp_demo).
Proof.
  exists 1, 0, 30.3. split; [apply fsolve_demo_mirror | apply demo_root_mirror].
Qed.

(** ** Inputs outside the physical domain *)

Lemma fl_mul_nan_r (a : fl) : (a * NaN)%fl = NaN.
Proof. destruct a; reflexivity. Qed.

Lemma scale_inf_pos (pos : bool) (x : R) :
  0 < x -> scale_inf pos x = if pos then PInf else NInf.
Proof.
  intros Hx. unfold scale_inf. destruct (Rlt_dec 0 x) as [_ | N]; [reflexivity | contradiction].
Qed.

Lemma X_nan (A rho T : fl) : X NaN A rho T = NaN.
Proof. unfold X. cbv zeta. cbn [fl_div np_exp]. apply fl_mul_nan_r. Qed.

Lemma mu_negative (T n : R) : 0 < T -> n < 0 -> mu T n 1 = NaN.
Proof.
  intros HT Hn. unfold mu. cbv zeta. rewrite nQ_fin by lra.
  pose proof (quantumConcentration_pos T 1) as HQ.
  rewrite fl_div_fin by (apply Rgt_not_eq; assumption).
  rewrite np_log_neg; [reflexivity |].
  assert (Hpos : 0 < (- n) / quantumConcentration T 1)
    by (apply Rdiv_lt_0_compat; lra).
  replace (- n / quantumConcentration T 1)
    with (- (n / quantumConcentration T 1)) in Hpos by (field; lra).
  lra.
Qed.

Lemma mu_zero (T : R) : 0 < T -> mu T 0 1 = NInf.
Proof.
  intros HT. unfold mu. cbv zeta. rewrite nQ_fin by lra.
  pose proof (quantumConcentration_pos T 1) as HQ.
  rewrite fl_div_fin by (apply Rgt_not_eq; assumption).
  replace (0 / quantumConcentration T 1) with 0 by (field; lra).
  rewrite np_log_zero. cbn [fl_mul]. apply (scale_inf_pos false). exact HT.
Qed.

Lemma two_neg_inf : (2 * NInf)%fl = NInf.
Proof. cbn [fl_mul]. apply (scale_inf_pos false). lra. Qed.

(** A baseline guess with a nucleon density that is zero or negative: the
    potential of that density is [-inf] or [nan], so is [mualphaguess], the
    test [mualphaguess>munguess] is false, and the seed is not finite. *)
Lemma nonpositive_density_guess (T n_p n_n : R) :
  0 < T -> n_p <= 0 \/ n_n <= 0 ->
  (mualpha (mu T n_n 1) (mu T n_p 1) >? mu T n_n 1)%fl = false /\
  ~ finite3 (mu T n_p 1, mu T n_n 1, mualpha (mu T n_n 1) (mu T n_p 1)).
Proof.
  intros HT Hsign.
  destruct (Rtotal_order n_p 0) as [Hp | [Hp | Hp]];
    destruct (Rtotal_order n_n 0) as [Hn | [Hn | Hn]];
    try (exfalso; lra); subst;
    rewrite ?mu_zero, ?(mu_negative T n_p), ?(mu_negative T n_n),
            ?(mu_fin T n_p), ?(mu_fin T n_n) by lra;
    unfold mualpha; rewrite ?two_neg_inf;
    (split; [reflexivity | intros (a & b & c & E); discriminate E]).
Qed.

(** An input with [rho < 0], or with [rho > 0] and [yp] at or outside the
    ends of the unit interval, gives such a baseline guess, which is then the
    seed. *)
Lemma baseline_outside_domain (rho T yp : R) :
  0 < T -> rho < 0 \/ (0 < rho /\ (yp <= 0 \/ 1 <= yp)) ->
  stiff rho T yp = false /\
  ~ finite3 (seed_of (baseline_guess rho T yp)).
Proof.
  intros HT Hdom. unfold stiff. rewrite baseline_guess_fin. cbv zeta.
  unfold seed_of. cbn [mualphaguess munguess mupguess].
  apply nonpositive_density_guess; [exact HT |].
  assert (Hm : 0 < / 1.66053907e-24) by (apply Rinv_0_lt_compat; lra).
  unfold Rdiv.
  destruct Hdom as [Hneg | [Hpos [Hle | Hge]]].
  - destruct (Rle_lt_dec 0 yp) as [Hy | Hy].
    + left. assert (yp * rho <= 0) by nra. nra.
    + right. assert ((1 - yp) * rho <= 0) by nra. nra.
  - left. assert (yp * rho <= 0) by nra. nra.
  - right. assert ((1 - yp) * rho <= 0) by nra. nra.
Qed.

Lemma guess_defined_finite (T : R) (g : guess) :
  guess_defined T g -> finite3 (seed_of g).
Proof.
  intros (n_p & n_n & _ & _ & _ & _ & _ & _ & Hp & Hn & Ha).
  unfold finite3, seed_of. rewrite Hp, Hn, Ha. eauto.
Qed.

(** ** The range of binary64 *)

(** Over the exact operations the generic transcriptions are the notebook's
    functions. *)
Lemma X_in_exact : X_in exact = X.
Proof. reflexivity. Qed.

Lemma mu_in_exact : mu_in exact = mu.
Proof. reflexivity. Qed.

Lemma baseline_densities_exact (rho T yp : fl) :
  baseline_densities_in exact rho yp
  = (npguess (baseline_guess rho T yp), nnguess (baseline_guess rho T yp)).
Proof. reflexivity. Qed.

Lemma fit_in_range (x : R) : tiny < x -> x < huge -> fit x = Fin x.
Proof.
  intros Hlo Hhi. unfold fit. assert (0 < tiny) by (unfold tiny; lra).
  rewrite Rabs_pos_eq by lra.
  destruct (Rle_dec x tiny) as [L | _]; [lra |].
  destruct (Rle_dec huge x) as [L | _]; [lra | reflexivity].
Qed.

Lemma fit_flushes (x : R) : 0 <= x -> x <= tiny -> fit x = Fin 0.
Proof.
  intros H0 Hx. unfold fit. rewrite Rabs_pos_eq by exact H0.
  destruct (Rle_dec x tiny) as [_ | N]; [reflexivity | lra].
Qed.

Lemma fit_zero : fit 0 = Fin 0.
Proof. apply fit_flushes; unfold tiny; lra. Qed.

Lemma fit_not_nan (x : R) : fit x <> NaN.
Proof.
  unfold fit. destruct (Rle_dec (Rabs x) tiny); [discriminate |].
  destruct (Rle_dec huge (Rabs x)); [destruct (Rlt_dec 0 x) |]; discriminate.
Qed.

Lemma fit_monotone (x y : R) : x <= y -> fl_le (fit x) (fit y) = true.
Proof.
  intros Hxy. assert (Ht : 0 < tiny < huge) by (unfold tiny, huge; lra).
  unfold fit, Rabs.
  destruct (Rcase_abs x), (Rcase_abs y);
    repeat match goal with
           | |- context [Rle_dec ?a ?b] => destruct (Rle_dec a b)
           | |- context [Rlt_dec ?a ?b] => destruct (Rlt_dec a b)
           end;
    cbn [fl_le]; unfold Rleb;
    try match goal with
        | |- context [Rle_dec ?a ?b] => destruct (Rle_dec a b)
        end;
    try reflexivity; lra.
Qed.

(** [2 ** n <= e ** n], and with it the point where [np.exp] underflows. *)
Lemma exp_nat (n : nat) : 2 ^ n <= exp (INR n).
Proof.
  induction n as [| n IH].
  - simpl. rewrite exp_0. lra.
  - rewrite S_INR, exp_plus. simpl pow.
    pose proof (exp_ineq1_le 1). pose proof (exp_pos (INR n)).
    assert (0 < 2 ^ n) by (apply pow_lt; lra). nra.
Qed.

Lemma tiny_above_power : / tiny <= 2 ^ 1100.
Proof.
  unfold tiny. rewrite (pow_IZR 2 1100).
  match goal with
  | |- context [IZR (?a ^ ?b)] =>
      let v := eval vm_compute in (a ^ b)%Z in change (a ^ b)%Z with v
  end.
  lra.
Qed.

Lemma exp_underflows (x : R) : x <= -1100 -> exp x <= tiny.
Proof.
  intros Hx.
  assert (H1 : exp x <= exp (- (1100))).
  { assert (Hx' : x <= - (1100)) by lra.
    destruct (Rle_lt_or_eq_dec _ _ Hx') as [Hlt | ->];
      [left; apply exp_increasing; exact Hlt | right; reflexivity]. }
  assert (H2 : 2 ^ 1100 <= exp 1100).
  { pose proof (exp_nat 1100) as H. rewrite INR_IZR_INZ in H.
    change (Z.of_nat 1100) with 1100%Z in H. exact H. }
  rewrite exp_Ropp in H1.
  pose proof tiny_above_power as H3.
  assert (H4 : 0 < / tiny) by (unfold tiny; lra).
  assert (H5 : / exp 1100 <= / (/ tiny)) by (apply Rinv_le_contravar; lra).
  rewrite Rinv_inv in H5. lra.
Qed.

(** The nucleon quantum concentration at [T = 3] MeV, from [3 < PI <= 4]. *)
Lemma quantumConcentration_warm :
  1e36 <= quantumConcentration 3 1 <= 1.8e36.
Proof.
  pose proof PI2_3_2 as H3. pose proof PI_4 as H4.
  unfold quantumConcentration. split.
  - replace 1e36 with (Rpower (1e12 * 1e12) 1.5) by (rewrite Rpower_square_1_5; lra).
    apply Rle_Rpower_l; lra.
  - replace 1.8e36 with (Rpower (1.8e36) 1) by (rewrite Rpower_1; lra).
    apply Rle_trans with (Rpower (1.21e12 * 1.21e12) 1.5).
    + apply Rle_Rpower_l; [lra |]. split; [| lra].
      replace ((1.24e-10) ^ 2) with (1.24e-10 * 1.24e-10) by ring.
      apply nQ_base_pos; lra.
    + rewrite Rpower_square_1_5, Rpower_1; lra.
Qed.

(** In the range model the [nQ] line of [X] and [mu] stays in range there. *)
Lemma nQ64_warm :
  ar_pow1_5 binary64
    (ar_div binary64
       (ar_mul binary64
          (ar_mul binary64
             (ar_mul binary64 (ar_mul binary64 (Fin 2) np_pi) (Fin 3)) (Fin 1))
          mamuc2)
       (ar_pow2 binary64 hc))
  = Fin (quantumConcentration 3 1).
Proof.
  pose proof PI2_3_2 as H3. pose proof PI_4 as H4.
  pose proof quantumConcentration_warm as HQ.
  cbn [ar_pow1_5 ar_div ar_mul ar_pow2 binary64].
  unfold np_pi, mamuc2, hc, pow2.
  repeat (cbn [fl_mul fit_fl]; rewrite fit_in_range by (unfold tiny, huge; lra)).
  rewrite fl_div_fin by lra. cbn [fit_fl].
  rewrite fit_in_range by (unfold tiny, huge; lra).
  rewrite pow1_5_fin by lra. cbn [fit_fl].
  replace (Rpower (2 * PI * 3 * 1 * 931.494103 / (1.24e-10 * 1.24e-10)) 1.5)
    with (quantumConcentration 3 1)
    by (unfold quantumConcentration; do 2 f_equal; lra).
  apply fit_in_range; unfold tiny, huge; lra.
Qed.

Lemma fit_in_range_neg (x : R) : - huge < x -> x < - tiny -> fit x = Fin x.
Proof.
  intros Hlo Hhi. unfold fit. assert (0 < tiny) by (unfold tiny; lra).
  rewrite Rabs_left by lra.
  destruct (Rle_dec (- x) tiny) as [L | _]; [lra |].
  destruct (Rle_dec huge (- x)) as [L | _]; [lra | reflexivity].
Qed.

Lemma fit_positive (x y : R) : fit x = Fin y -> 0 < y -> y = x /\ x < huge.
Proof.
  unfold fit. intros E Hy.
  destruct (Rle_dec (Rabs x) tiny); [injection E; intros; lra |].
  destruct (Rle_dec huge (Rabs x)) as [| N]; [destruct (Rlt_dec 0 x); discriminate |].
  injection E as <-. split; [reflexivity |].
  rewrite Rabs_pos_eq in N; lra.
Qed.

Lemma fl_le_PInf (a : fl) : a <> NaN -> fl_le a PInf = true.
Proof. destruct a; intros H; try reflexivity. contradiction. Qed.

Lemma fl_le_NInf (b : fl) : b <> NaN -> fl_le NInf b = true.
Proof. destruct b; intros H; try reflexivity. contradiction. Qed.

(** [np.exp] and the product with a positive prefactor keep the order. *)
Lemma exp64_monotone (a b : fl) :
  fl_le a b = true ->
  fl_le (ar_exp binary64 a) (ar_exp binary64 b) = true.
Proof.
  cbn [ar_exp binary64].
  destruct a as [x | | |], b as [y | | |];
    cbn [fl_le np_exp fit_fl]; intros H; try discriminate H; try reflexivity.
  - apply fit_monotone. unfold Rleb in H.
    destruct (Rle_dec x y) as [L | _]; [| discriminate].
    destruct L as [L | ->]; [left; apply exp_increasing; exact L | right; reflexivity].
  - apply fl_le_PInf, fit_not_nan.
  - apply fit_monotone. left. apply exp_pos.
  - apply fl_le_PInf, fit_not_nan.
  - apply fit_monotone. lra.
Qed.

Lemma mul64_monotone (q : R) (a b : fl) :
  0 < q -> fl_le a b = true ->
  fl_le (ar_mul binary64 (Fin q) a) (ar_mul binary64 (Fin q) b) = true.
Proof.
  intros Hq. cbn [ar_mul binary64].
  destruct a as [x | | |], b as [y | | |];
    cbn [fl_mul fit_fl]; rewrite ?scale_inf_pos by exact Hq;
    cbn [fit_fl]; intros H; try discriminate H; try reflexivity.
  - apply fit_monotone. cbn [fl_le] in H. unfold Rleb in H.
    destruct (Rle_dec x y) as [L | _]; [| discriminate]. nra.
  - apply fl_le_PInf, fit_not_nan.
  - apply fl_le_NInf, fit_not_nan.
Qed.

(** The prefactor of [X] for nucleons at [T = 3] over the densities
    [1e-10 <= rho <= 1e15]. *)
Lemma prefactor_warm (rho : R) :
  1e-10 <= rho <= 1e15 ->
  1e-39 <= 1 / (rho * 6.02214076e23) <= 1e-13 /\
  1e-3 <= 1 / (rho * 6.02214076e23) * quantumConcentration 3 1 <= 1e24.
Proof.
  intros [Hlo Hhi]. pose proof quantumConcentration_warm as [Q1 Q2].
  set (d := rho * 6.02214076e23).
  assert (Hd : 6e13 <= d <= 6.1e38) by (unfold d; lra).
  assert (Hc : 1 / d * d = 1) by (field; lra).
  assert (Hc0 : 0 < 1 / d) by (apply Rdiv_lt_0_compat; lra).
  set (c := 1 / d) in *.
  assert (Hc1 : 1e-39 <= c) by nra.
  assert (Hc2 : c <= 1e-13) by nra.
  split; [split; assumption |].
  set (Q := quantumConcentration 3 1) in *. split; nra.
Qed.

Lemma X64_warm (xmu : fl) (rho : R) :
  1e-10 <= rho <= 1e15 ->
  X64 xmu 1 rho 3
  = ar_mul binary64
      (Fin (1 / (rho * 6.02214076e23) * quantumConcentration 3 1))
      (ar_exp binary64 (ar_div binary64 xmu 3)).
Proof.
  intros Hrho. destruct (prefactor_warm rho Hrho) as [Hc Hp].
  unfold X64, X_in. cbv zeta. rewrite nQ64_warm.
  f_equal. cbn [ar_mul ar_div binary64]. unfold Navo. cbn [fl_mul fit_fl].
  rewrite fit_in_range by (unfold tiny, huge; lra).
  rewrite fl_div_fin by lra. cbn [fit_fl].
  rewrite fit_in_range by (unfold tiny, huge; lra).
  cbn [fl_mul fit_fl]. apply fit_in_range; unfold tiny, huge; lra.
Qed.

(** Where [np.exp] underflows [X] is exactly zero. *)
Lemma X64_underflows (m rho : R) :
  1e-10 <= rho <= 1e15 -> -1e300 <= m <= -3300 ->
  X64 m 1 rho 3 = Fin 0.
Proof.
  intros Hrho Hm. rewrite X64_warm by exact Hrho.
  cbn [ar_mul ar_div ar_exp binary64].
  rewrite fl_div_fin by lra. cbn [fit_fl].
  rewrite fit_in_range_neg by (unfold tiny, huge; lra).
  cbn [np_exp fit_fl].
  rewrite (fit_flushes (exp (m / 3)))
    by (try apply exp_underflows; try (left; apply exp_pos); lra).
  cbn [fl_mul fit_fl]. rewrite Rmult_0_r. apply fit_zero.
Qed.

Lemma X64_at_neg_inf (rho : R) :
  1e-10 <= rho <= 1e15 -> X64 NInf 1 rho 3 = Fin 0.
Proof.
  intros Hrho. rewrite X64_warm by exact Hrho.
  cbn [ar_mul ar_div ar_exp binary64 fl_div].
  destruct (Rlt_dec 3 0) as [N | _]; [lra |].
  cbn [fit_fl np_exp]. rewrite fit_zero.
  cbn [fl_mul fit_fl]. rewrite Rmult_0_r. apply fit_zero.
Qed.

Lemma X64_at_zero (rho : R) :
  1e-10 <= rho <= 1e15 ->
  X64 0 1 rho 3 = Fin (1 / (rho * 6.02214076e23) * quantumConcentration 3 1).
Proof.
  intros Hrho. destruct (prefactor_warm rho Hrho) as [Hc Hp].
  rewrite X64_warm by exact Hrho.
  cbn [ar_mul ar_div ar_exp binary64].
  rewrite fl_div_fin by lra. cbn [fit_fl].
  replace (0 / 3) with 0 by lra. rewrite fit_zero.
  cbn [np_exp fit_fl]. rewrite exp_0.
  rewrite (fit_in_range 1) by (unfold tiny, huge; lra).
  cbn [fl_mul fit_fl]. rewrite Rmult_1_r.
  apply fit_in_range; unfold tiny, huge; lra.
Qed.

(** A number density whose ratio to [nQ] underflows has potential [-inf]. *)
Lemma mu64_underflows (n : R) :
  0 <= n <= 1e-290 -> mu64 3 n 1 = NInf.
Proof.
  intros Hn. pose proof quantumConcentration_warm as [Q1 Q2].
  unfold mu64, mu_in. cbv zeta. rewrite nQ64_warm.
  cbn [ar_mul ar_div ar_log binary64].
  rewrite fl_div_fin by lra. cbn [fit_fl].
  set (Q := quantumConcentration 3 1) in *.
  assert (Hq : 0 < / Q) by (apply Rinv_0_lt_compat; lra).
  assert (Hq1 : / Q * Q = 1) by (field; lra).
  rewrite fit_flushes by (unfold tiny, Rdiv; nra).
  rewrite np_log_zero. cbn [fl_mul]. rewrite scale_inf_pos by lra.
  reflexivity.
Qed.

(** The product [Y_p * rho] of the first guess can underflow. *)
Lemma baseline_density_underflows :
  fst (baseline_densities_in binary64 1e-300 1e-30) = Fin 0.
Proof.
  unfold baseline_densities_in. cbn [fst ar_mul ar_div binary64].
  unfold mamu_grams. cbn [fl_mul fit_fl].
  rewrite fit_flushes by (unfold tiny; lra).
  rewrite fl_div_fin by lra. cbn [fit_fl].
  replace (0 / 1.66053907e-24) with 0 by lra. apply fit_zero.
Qed.

(** Infinite potentials: [X] is [0] at [-inf] and [+inf] at [+inf]. *)
Lemma X_at_neg_inf (A rho T : R) :
  0 < A -> 0 < rho -> 0 < T -> X NInf A rho T = Fin 0.
Proof.
  intros HA Hrho HT. unfold X. cbv zeta. rewrite nQ_fin by assumption.
  unfold Navo. cbn [fl_mul].
  rewrite (fl_div_fin A) by (apply Rgt_not_eq; apply Rmult_lt_0_compat; lra).
  cbn [fl_div]. destruct (Rlt_dec T 0) as [N | _]; [lra |].
  cbn [np_exp fl_mul]. f_equal. ring.
Qed.

Lemma X_at_pos_inf (A rho T : R) :
  0 < A -> 0 < rho -> 0 < T -> X PInf A rho T = PInf.
Proof.
  intros HA Hrho HT. unfold X. cbv zeta. rewrite nQ_fin by assumption.
  unfold Navo. cbn [fl_mul].
  rewrite (fl_div_fin A) by (apply Rgt_not_eq; apply Rmult_lt_0_compat; lra).
  cbn [fl_div]. destruct (Rlt_dec T 0) as [N | _]; [lra |].
  cbn [np_exp fl_mul]. apply (scale_inf_pos true).
  pose proof (quantumConcentration_pos T A) as HQ.
  apply Rmult_lt_0_compat; [| exact HQ].
  apply Rdiv_lt_0_compat; [exact HA |]. apply Rmult_lt_0_compat; lra.
Qed.

(** Whatever potential [X] is given, short of [nan], its value is not
    negative. *)
Lemma X_nonnegative (m : fl) (A rho T : R) :
  0 < A -> 0 < rho -> 0 < T -> m <> NaN -> nonnegative (X m A rho T).
Proof.
  intros HA Hrho HT Hm.
  destruct m as [x | | |]; [| | | contradiction].
  - right. rewrite X_fin by assumption. eexists. split; [reflexivity |].
    left. apply massFraction_pos; assumption.
  - left. apply X_at_pos_inf; assumption.
  - right. exists 0. split; [apply X_at_neg_inf; assumption | lra].
Qed.

Lemma guess_defined_positive (T : R) (g : guess) :
  guess_defined T g -> guess_positive g.
Proof.
  intros (n_p & n_n & Hp & Hn & Pp & Pn & _ & _ & Mp & Mn & Ma).
  exists n_p, n_n. do 3 eexists.
  repeat split; eassumption.
Qed.

(** * The claims *)

(** C1. For every [rho > 0], [T > 0], [Y_p] and every potential triple
    [(mu_p, mu_n, mu_alpha)], in that order, the residual vector [LS] is,
    component by component, mass conservation
    [1 - X(mu_p,1) - X(mu_n,1) - X(mu_alpha,4)], charge conservation
    [Y_p - X(mu_p,1) - X(mu_alpha,4)/2] and the NSE relation
    [mu_alpha - (2 mu_n + 2 mu_p + 28.3)], the alpha fraction being taken
    with [A = 4]; and it is this [LS] that [get_Xs] hands to the root-finder,
    seeded with the guess in the order [(mu_p, mu_n, mu_alpha)]. *)
Theorem LS_residuals (fsolve : (vec3 -> vec3) -> vec3 -> vec3)
    (rho T yp mu_p mu_n mu_alpha : R) :
  0 < rho -> 0 < T ->
  LS rho T yp (Fin mu_p, Fin mu_n, Fin mu_alpha)
  = (Fin (1 - massFractionFromPotential mu_p 1 rho T
            - massFractionFromPotential mu_n 1 rho T
            - massFractionFromPotential mu_alpha 4 rho T),
     Fin (yp - massFractionFromPotential mu_p 1 rho T
             - massFractionFromPotential mu_alpha 4 rho T / 2),
     Fin (mu_alpha - (2 * mu_n + 2 * mu_p + 28.3)))
  /\ get_Xs fsolve rho T yp
     = (let g := final_guess rho T yp in
        let '(values0, values1, values2) :=
          fsolve (LS rho T yp) (mupguess g, munguess g, mualphaguess g) in
        (X values0 1 rho T, X values1 1 rho T, X values2 4 rho T)).
Proof.
  intros Hrho HT. split; [apply LS_fin; assumption | apply get_Xs_seed].
Qed.

Lemma LS_residuals_witness :
  LS 1e11 3 0.25 (Fin (-9), Fin (-8), Fin (-5))
  = (Fin (1 - massFractionFromPotential (-9) 1 1e11 3
            - massFractionFromPotential (-8) 1 1e11 3
            - massFractionFromPotential (-5) 4 1e11 3),
     Fin (0.25 - massFractionFromPotential (-9) 1 1e11 3
               - massFractionFromPotential (-5) 4 1e11 3 / 2),
     Fin (-5 - (2 * -8 + 2 * -9 + 28.3)))
  /\ get_Xs fsolve_stalled 1e11 3 0.25
     = (let g := final_guess 1e11 3 0.25 in
        let '(values0, values1, values2) :=
          fsolve_stalled (LS 1e11 3 0.25) (mupguess g, munguess g, mualphaguess g) in
        (X values0 1 1e11 3, X values1 1 1e11 3, X values2 4 1e11 3)).
Proof. apply (LS_residuals fsolve_stalled 1e11 3 0.25 (-9) (-8) (-5)); lra. Defined.

(** C2. For every [mu], [A > 0], [rho > 0], [T > 0], [X] returns
    [(A / (rho N_A)) * nQ(T,A) * exp (mu / T)] with
    [nQ(T,A) = (2 pi T A m_amu c^2 / (hc)^2)^1.5] and the constants
    931.494103, 6.02214076e23 and 1.24e-10. *)
Theorem X_closed_form (xmu A rho T : R) :
  0 < A -> 0 < rho -> 0 < T ->
  X xmu A rho T
  = Fin (A / (rho * 6.02214076e23)
         * Rpower (2 * PI * T * A * 931.494103 / (1.24e-10) ^ 2) 1.5
         * exp (xmu / T)).
Proof. intros HA Hrho HT. apply X_fin; assumption. Qed.

Lemma X_closed_form_witness :
  X (-9) 4 1e11 3
  = Fin (4 / (1e11 * 6.02214076e23)
         * Rpower (2 * PI * 3 * 4 * 931.494103 / (1.24e-10) ^ 2) 1.5
         * exp (-9 / 3)).
Proof. apply (X_closed_form (-9) 4 1e11 3); lra. Defined.

(** C3. The recomputation of the guess is taken exactly when the baseline
    [mualphaguess] exceeds the baseline [munguess].  When it is not taken the
    baseline is the only guess; when it is taken there is exactly one further
    guess, which becomes the seed, with [n_p = min(0.01, Y_p) rho / m_amu] and
    [n_n = 2 (0.5 - Y_p) rho / m_amu] for [Y_p < 0.5], and
    [n_n = min(0.01, 1 - Y_p) rho / m_amu] and
    [n_p = 2 (Y_p - 0.499) rho / m_amu] for [Y_p >= 0.5], its potentials being
    [mu] of these densities and [mualpha] of those two potentials. *)
Theorem guess_recomputation (rho yp : R) (T : fl) :
  let g0 := baseline_guess rho T yp in
  ((mualphaguess g0 >? munguess g0)%fl = false ->
     guess_states rho T yp = [g0] /\ final_guess rho T yp = g0) /\
  ((mualphaguess g0 >? munguess g0)%fl = true ->
     exists g1 : guess,
       guess_states rho T yp = [g0; g1] /\ final_guess rho T yp = g1 /\
       (yp < 0.5 ->
          npguess g1 = Fin (Rmin 0.01 yp * rho / 1.66053907e-24) /\
          nnguess g1 = Fin (2 * (0.5 - yp) * rho / 1.66053907e-24)) /\
       (0.5 <= yp ->
          nnguess g1 = Fin (Rmin 0.01 (1 - yp) * rho / 1.66053907e-24) /\
          npguess g1 = Fin (2 * (yp - 0.499) * rho / 1.66053907e-24)) /\
       mupguess g1 = mu T (npguess g1) 1 /\
       munguess g1 = mu T (nnguess g1) 1 /\
       mualphaguess g1 = mualpha (munguess g1) (mupguess g1)).
Proof.
  cbv zeta. split.
  - intros Hs. change (stiff rho T yp = false) in Hs.
    split; [rewrite guess_states_unfold, Hs; reflexivity |].
    apply final_guess_not_stiff. exact Hs.
  - intros Hs. change (stiff rho T yp = true) in Hs.
    destruct (Rlt_le_dec yp 0.5) as [L | G].
    + pose proof (alpha_guess_below rho yp T L) as E. cbv zeta in E.
      eexists. split; [rewrite guess_states_unfold, Hs, E; reflexivity |].
      split; [apply final_guess_stiff; [exact Hs | exact E] |].
      cbn [npguess nnguess mupguess munguess mualphaguess].
      repeat split; try reflexivity; intros; lra.
    + pose proof (alpha_guess_above rho yp T G) as E. cbv zeta in E.
      eexists. split; [rewrite guess_states_unfold, Hs, E; reflexivity |].
      split; [apply final_guess_stiff; [exact Hs | exact E] |].
      cbn [npguess nnguess mupguess munguess mualphaguess].
      repeat split; try reflexivity; intros; lra.
Qed.

(** C7, as stated, fails: the round trip is not exact in binary64.  At
    [T = 3], [A = 1] the number density [n = 1e-290] is so far below [nQ]
    (above [1e36]) that [n / nQ] underflows to zero; [mu] is [-inf] and [X]
    maps it to the mass fraction 0, while [A n / (rho N_A)] at
    [rho = 1e-10] is above [1e-304], a normal binary64 number. *)
Lemma round_trip_underflows :
  mu64 3 1e-290 1 = NInf /\
  X64 (mu64 3 1e-290 1) 1 1e-10 3 = Fin 0 /\
  1e-304 <= 1 * 1e-290 / (1e-10 * 6.02214076e23).
Proof.
  rewrite mu64_underflows by lra.
  split; [reflexivity |]. split; [apply X64_at_neg_inf; lra | lra].
Qed.

(** C7, amended.  In exact real arithmetic [mu] inverts [X] in
    number-density space: for [T > 0], [A > 0], [rho > 0], [n > 0] the
    formula of [X] at the formula of [mu] is [A n / (rho N_A)], and so is the
    code of [X] at the code of [mu] when its operations are the exact ones.
    In binary64 this holds up to rounding only, and only where [n / nQ] stays
    in range. *)
Theorem inverse_formulas (T n A rho : R) :
  0 < T -> 0 < A -> 0 < rho -> 0 < n ->
  massFractionFromPotential (potentialFromNumberDensity T n A) A rho T
  = A * n / (rho * 6.02214076e23) /\
  X_in exact (mu_in exact T n A) A rho T
  = Fin (A * n / (rho * 6.02214076e23)).
Proof.
  intros HT HA Hrho Hn. split.
  - apply massFraction_of_potential; assumption.
  - rewrite X_in_exact, mu_in_exact. apply X_mu_fin; assumption.
Qed.

Lemma inverse_formulas_witness :
  massFractionFromPotential (potentialFromNumberDensity 3 1.5e34 1) 1 1e11 3
  = 1 * 1.5e34 / (1e11 * 6.02214076e23) /\
  X_in exact (mu_in exact 3 1.5e34 1) 1 1e11 3
  = Fin (1 * 1.5e34 / (1e11 * 6.02214076e23)).
Proof. apply (inverse_formulas 3 1.5e34 1 1e11); lra. Defined.

(** C8, as stated, fails: [X] is not strictly increasing in binary64.  At
    [A = 1], [rho = 1e11], [T = 3] the potentials [-2e5 < -1e5] both make
    [np.exp] underflow, and [X] is exactly 0 at both. *)
Lemma X_flat_where_exp_underflows :
  X64 (-2e5) 1 1e11 3 = Fin 0 /\
  X64 (-1e5) 1 1e11 3 = Fin 0 /\
  (X64 (-2e5) 1 1e11 3 <? X64 (-1e5) 1 1e11 3)%fl = false.
Proof.
  rewrite !X64_underflows by lra.
  repeat split. apply fl_lt_fin_false. lra.
Qed.

(** C8, amended.  With underflow and overflow of binary64 taken into account
    [X] is non-decreasing in the potential: for [T > 0] and [A], [rho] at
    which the prefactor of [X] is a positive finite number (which it is when
    [X] at potential 0 is one), [mu1 <= mu2] gives
    [X(mu1,A,rho,T) <= X(mu2,A,rho,T)]. *)
Theorem X64_nondecreasing (mu1 mu2 A rho T x0 : R) :
  0 < T -> X64 0 A rho T = Fin x0 -> 0 < x0 -> mu1 <= mu2 ->
  fl_le (X64 mu1 A rho T) (X64 mu2 A rho T) = true.
Proof.
  intros HT H0 Hx0 Hle. unfold X64, X_in in *. cbv zeta in *.
  set (pre := ar_mul binary64 (ar_div binary64 A (ar_mul binary64 rho Navo)) _) in *.
  assert (Hpre : exists q : R, pre = Fin q /\ 0 < q).
  { revert H0. cbn [ar_mul ar_div ar_exp binary64].
    rewrite fl_div_fin by lra. cbn [fit_fl].
    replace (0 / T) with 0 by (field; lra).
    rewrite fit_zero. cbn [np_exp fit_fl]. rewrite exp_0.
    rewrite (fit_in_range 1) by (unfold tiny, huge; lra).
    destruct pre as [q | | |]; cbn [fl_mul fit_fl];
      rewrite ?scale_inf_pos by lra; try discriminate.
    intros E. destruct (fit_positive _ _ E Hx0) as [-> _]. exists q. split; [reflexivity | lra]. }
  destruct Hpre as (q & -> & Hq).
  apply mul64_monotone; [exact Hq |].
  apply exp64_monotone.
  cbn [ar_div binary64]. rewrite !fl_div_fin by lra. cbn [fit_fl].
  apply fit_monotone. unfold Rdiv. apply Rmult_le_compat_r; [| exact Hle].
  left. apply Rinv_0_lt_compat. exact HT.
Qed.

Lemma X64_nondecreasing_witness :
  fl_le (X64 (-9) 1 1e11 3) (X64 (-8) 1 1e11 3) = true.
Proof.
  apply (X64_nondecreasing (-9) (-8) 1 1e11 3
           (1 / (1e11 * 6.02214076e23) * quantumConcentration 3 1)).
  - lra.
  - apply X64_at_zero. lra.
  - destruct (prefactor_warm 1e11) as [_ [H _]]; lra.
  - lra.
Defined.

(** C9, as stated, fails: a density guess can be zero in binary64.  At
    [rho = 1e-300], [Y_p = 1e-30] the product [Y_p * rho] underflows, the
    baseline proton density is 0 and its potential (at [T = 3]) is [-inf]. *)
Lemma density_guess_underflows :
  fst (baseline_densities_in binary64 1e-300 1e-30) = Fin 0 /\
  mu64 3 (fst (baseline_densities_in binary64 1e-300 1e-30)) 1 = NInf.
Proof.
  rewrite baseline_density_underflows.
  split; [reflexivity | apply mu64_underflows; lra].
Qed.

(** C9, amended.  For [1 <= rho <= 1e15], [0.01 <= T <= 100] and
    [1e-300 <= Y_p < 1], where no product or quotient of the guess phase
    leaves the range of binary64, every guess formed by [get_Xs] (the
    baseline and, when the test [mualphaguess > munguess] succeeds, the
    recomputed one of either arm) has strictly positive number densities and
    finite potentials: no logarithm is taken of zero or of a negative
    number. *)
Theorem guess_densities_positive_in_range (rho T yp : R) :
  1 <= rho <= 1e15 -> 0.01 <= T <= 100 -> 1e-300 <= yp < 1 ->
  Forall guess_positive (guess_states rho T yp).
Proof.
  intros Hrho HT Hyp.
  apply Forall_impl with (P := guess_defined T);
    [intros g; apply guess_defined_positive |].
  apply guess_states_defined; lra.
Qed.

(** At [rho = 1e11], [T = 0.01], [Y_p = 0.5] the recomputed guess (the arm
    with the constant [0.499]) is one of the two guesses. *)
Lemma guess_densities_positive_in_range_witness :
  Forall guess_positive (guess_states 1e11 0.01 0.5) /\
  length (guess_states 1e11 0.01 0.5) = 2%nat.
Proof.
  split.
  - apply (guess_densities_positive_in_range 1e11 0.01 0.5); lra.
  - rewrite guess_states_unfold, stiff_cold, alpha_guess_above by lra.
    reflexivity.
Defined.

(** C10, as stated, fails: a returned fraction can be exactly zero.  With
    [Y_p = 0] (at [rho = 1e11], [T = 3]) the proton density of the guess is
    0, its potential is [-inf], and with a root-finder that does not move
    from that seed [get_Xs] returns a proton and an alpha fraction of 0.
    Also for a finite potential: at [-5000] the exponential underflows and
    [X] is 0. *)
Lemma get_Xs_returns_zero :
  get_Xs fsolve_stalled 1e11 3 0
  = (Fin 0,
     Fin (1 * ((1 - 0) * 1e11 / 1.66053907e-24) / (1e11 * 6.02214076e23)),
     Fin 0) /\
  X64 (-5000) 1 1e11 3 = Fin 0.
Proof.
  split; [| apply X64_underflows; lra].
  rewrite get_Xs_stalled.
  destruct (baseline_outside_domain 1e11 3 0 ltac:(lra) ltac:(right; lra))
    as [Hs _].
  rewrite (final_guess_not_stiff _ _ _ Hs), baseline_guess_fin. cbv zeta.
  cbn [mupguess munguess mualphaguess].
  replace (0 * 1e11 / 1.66053907e-24) with 0 by lra.
  rewrite mu_zero by lra.
  rewrite (mu_fin 3 ((1 - 0) * 1e11 / 1.66053907e-24)) by lra.
  unfold mualpha. rewrite two_neg_inf. cbn [fl_mul fl_add].
  rewrite <- (mu_fin 3 ((1 - 0) * 1e11 / 1.66053907e-24)) by lra.
  rewrite X_mu_fin by lra.
  rewrite !X_at_neg_inf by lra. reflexivity.
Qed.

(** C10, amended.  For [1 <= rho <= 1e15] and [0.01 <= T <= 100], whatever
    potentials other than [nan] the root-finder hands back, none of the three
    mass fractions returned by [get_Xs] is negative or [nan]: each is a
    non-negative number or [+inf].  A fraction of exactly 0 does occur. *)
Theorem get_Xs_nonnegative (fsolve : (vec3 -> vec3) -> vec3 -> vec3)
    (rho T : R) (yp p n a : fl) :
  1 <= rho <= 1e15 -> 0.01 <= T <= 100 ->
  fsolve (LS rho T yp) (seed_of (final_guess rho T yp)) = (p, n, a) ->
  p <> NaN -> n <> NaN -> a <> NaN ->
  nonnegative (vec_p (get_Xs fsolve rho T yp)) /\
  nonnegative (vec_n (get_Xs fsolve rho T yp)) /\
  nonnegative (vec_alpha (get_Xs fsolve rho T yp)).
Proof.
  intros Hrho HT Hs Hp Hn Ha. rewrite get_Xs_seed, Hs.
  cbn [vec_p vec_n vec_alpha fst snd].
  repeat split; apply X_nonnegative; try assumption; lra.
Qed.

Lemma get_Xs_nonnegative_witness :
  nonnegative (vec_p (get_Xs fsolve_stalled 1e11 3 0.25)) /\
  nonnegative (vec_n (get_Xs fsolve_stalled 1e11 3 0.25)) /\
  nonnegative (vec_alpha (get_Xs fsolve_stalled 1e11 3 0.25)).
Proof.
  destruct (final_guess_defined 1e11 3 0.25)
    as (n_p & n_n & _ & _ & _ & _ & _ & _ & Ep & En & Ea); try lra.
  apply (get_Xs_nonnegative fsolve_stalled 1e11 3 0.25
           (mupguess (final_guess 1e11 3 0.25))
           (munguess (final_guess 1e11 3 0.25))
           (mualphaguess (final_guess 1e11 3 0.25)));
    try lra; try reflexivity.
  - rewrite Ep. discriminate.
  - rewrite En. discriminate.
  - rewrite Ea. discriminate.
Defined.

(** C4, as stated, fails: [get_Xs] returns [X] of whatever the root-finder
    hands back.  At [rho = 1e11], [T = 0.01], [Y_p = 0.999] the recomputed
    guess has nucleon fractions [2 (0.999 - 0.499)] and [0.001] (over
    [m_amu N_A]), and with a root-finder that does not move from it the
    returned fractions add up to more than [1 + 1e-6]. *)
Lemma conservation_needs_convergence :
  exists Xp Xn Xa : R,
    get_Xs fsolve_stalled 1e11 0.01 0.999 = (Fin Xp, Fin Xn, Fin Xa) /\
    1 + 1e-6 < Xp + Xn + Xa.
Proof.
  rewrite get_Xs_stalled.
  pose proof (alpha_guess_above 1e11 0.999 0.01 ltac:(lra)) as E. cbv zeta in E.
  rewrite (final_guess_stiff _ _ _ _ (stiff_cold 0.999 ltac:(lra)) E).
  cbn [mupguess munguess mualphaguess].
  assert (Hmin : Rmin 0.01 (1 - 0.999) = 0.001).
  { unfold Rmin. destruct (Rle_dec 0.01 (1 - 0.999)); lra. }
  rewrite Hmin.
  destruct (recovery_of_guess 1e11 0.01
              (2 * (0.999 - 0.499) * 1e11 / 1.66053907e-24)
              (0.001 * 1e11 / 1.66053907e-24)
              ltac:(lra) ltac:(lra) ltac:(lra) ltac:(lra)) as (Xa & HXa & Hrec).
  rewrite Hrec. do 3 eexists. split; [reflexivity |]. lra.
Qed.

(** C4, amended.  For every valid input, if the root-finder's answer is a
    finite triple at which the first residual of [LS] is at most [1e-6] in
    absolute value, the fractions [get_Xs] returns satisfy
    [|Xp + Xn + Xa - 1| <= 1e-6]. *)
Theorem conservation_from_residual (fsolve : (vec3 -> vec3) -> vec3 -> vec3)
    (rho T yp mu_p mu_n mu_alpha r1 r2 r3 : R) :
  0 < rho -> 0 < T -> 0 < yp < 1 ->
  solved_at fsolve rho T yp mu_p mu_n mu_alpha ->
  LS rho T yp (Fin mu_p, Fin mu_n, Fin mu_alpha) = (Fin r1, Fin r2, Fin r3) ->
  Rabs r1 <= 1e-6 ->
  exists Xp Xn Xa : R,
    get_Xs fsolve rho T yp = (Fin Xp, Fin Xn, Fin Xa) /\
    Rabs (Xp + Xn + Xa - 1) <= 1e-6.
Proof.
  intros Hrho HT Hyp Hs HLS Hr1.
  rewrite LS_fin in HLS by assumption. injection HLS as H1 _ _.
  exists (massFractionFromPotential mu_p 1 rho T),
         (massFractionFromPotential mu_n 1 rho T),
         (massFractionFromPotential mu_alpha 4 rho T).
  split; [apply get_Xs_solved; assumption |].
  rewrite <- Rabs_Ropp.
  match goal with |- Rabs ?e <= _ => replace e with r1 by lra end.
  exact Hr1.
Qed.

Lemma conservation_from_residual_witness :
  exists Xp Xn Xa : R,
    get_Xs fsolve_demo rho_demo 1 yp_demo = (Fin Xp, Fin Xn, Fin Xa) /\
    Rabs (Xp + Xn + Xa - 1) <= 1e-6.
Proof.
  apply (conservation_from_residual fsolve_demo rho_demo 1 yp_demo 0 1 30.3 0 0 0).
  - apply rho_demo_pos.
  - lra.
  - apply yp_demo_range.
  - apply fsolve_demo_direct.
  - apply demo_root.
  - rewrite Rabs_R0. lra.
Defined.

(** C5, as stated, fails: [get_Xs] tests none of its arguments.  Called with
    [Y_p = 1.5] (at [rho = 1e11], [T = 3]) it raises nothing; the neutron
    density of the baseline guess is negative, its logarithm is [nan], and
    with a root-finder that does not move from that seed the call returns
    the triple [(1.5 / (m_amu N_A), nan, nan)]. *)
Lemma get_Xs_accepts_invalid_Yp :
  call_get_Xs fsolve_stalled 1e11 3 1.5
  = Returns (Fin (1 * (1.5 * 1e11 / 1.66053907e-24) / (1e11 * 6.02214076e23)),
             NaN, NaN)
  /\ call_get_Xs fsolve_stalled 1e11 3 1.5 <> Raises DomainError.
Proof.
  split; [| discriminate].
  unfold call_get_Xs. rewrite get_Xs_stalled.
  destruct (baseline_outside_domain 1e11 3 1.5 ltac:(lra) ltac:(right; lra))
    as [Hs _].
  rewrite (final_guess_not_stiff _ _ _ Hs), baseline_guess_fin. cbv zeta.
  cbn [mupguess munguess mualphaguess].
  rewrite (mu_negative 3 ((1 - 1.5) * 1e11 / 1.66053907e-24)) by lra.
  replace (mualpha NaN (mu 3 (1.5 * 1e11 / 1.66053907e-24) 1)) with NaN by reflexivity.
  rewrite !X_nan, X_mu_fin by lra. reflexivity.
Qed.

(** C5, amended.  [get_Xs] performs no domain check and raises no domain
    error.  For [T > 0] and an input with [rho < 0], or with [rho > 0] and
    [Y_p <= 0] or [Y_p >= 1], the baseline guess is the only guess, its
    potentials are not all finite, it is handed to the root-finder as the
    seed, and the call returns [X] of whatever the root-finder answers. *)
Theorem get_Xs_unchecked (fsolve : (vec3 -> vec3) -> vec3 -> vec3)
    (rho T yp : R) :
  0 < T -> rho < 0 \/ (0 < rho /\ (yp <= 0 \/ 1 <= yp)) ->
  guess_states rho T yp = [baseline_guess rho T yp] /\
  ~ finite3 (seed_of (baseline_guess rho T yp)) /\
  call_get_Xs fsolve rho T yp
  = Returns (let '(values0, values1, values2) :=
               fsolve (LS rho T yp) (seed_of (baseline_guess rho T yp)) in
             (X values0 1 rho T, X values1 1 rho T, X values2 4 rho T)).
Proof.
  intros HT Hdom.
  destruct (baseline_outside_domain rho T yp HT Hdom) as [Hs Hnf].
  split; [rewrite guess_states_unfold, Hs; reflexivity |].
  split; [exact Hnf |].
  unfold call_get_Xs. rewrite get_Xs_seed.
  rewrite (final_guess_not_stiff _ _ _ Hs). reflexivity.
Qed.

Lemma get_Xs_unchecked_witness :
  guess_states 1e11 3 1.5 = [baseline_guess 1e11 3 1.5] /\
  ~ finite3 (seed_of (baseline_guess 1e11 3 1.5)) /\
  call_get_Xs fsolve_stalled 1e11 3 1.5
  = Returns (let '(values0, values1, values2) :=
               fsolve_stalled (LS 1e11 3 1.5) (seed_of (baseline_guess 1e11 3 1.5)) in
             (X values0 1 1e11 3, X values1 1 1e11 3, X values2 4 1e11 3)).
Proof.
  apply (get_Xs_unchecked fsolve_stalled 1e11 3 1.5); [lra | right; lra].
Defined.

(** C6, as stated, fails: the two guess arms are not mirror images
    ([0.5] against [0.499]) and nothing forces the root-finder to the root.
    At [rho = 1e11], [T = 0.01], with a root-finder that does not move from
    its seed, [Y_p = 0.25] gives a neutron fraction of [0.5 / (m_amu N_A)]
    while [Y_p = 1 - 0.25] gives a proton fraction of
    [0.502 / (m_amu N_A)]. *)
Lemma symmetry_needs_convergence :
  get_Xs fsolve_stalled 1e11 0.01 (Fin (1 - 0.25))
  <> swap12 (get_Xs fsolve_stalled 1e11 0.01 0.25).
Proof.
  rewrite !get_Xs_stalled.
  pose proof (alpha_guess_above 1e11 (1 - 0.25) 0.01 ltac:(lra)) as Ea. cbv zeta in Ea.
  pose proof (alpha_guess_below 1e11 0.25 0.01 ltac:(lra)) as Eb. cbv zeta in Eb.
  rewrite (final_guess_stiff _ _ _ _ (stiff_cold (1 - 0.25) ltac:(lra)) Ea).
  rewrite (final_guess_stiff _ _ _ _ (stiff_cold 0.25 ltac:(lra)) Eb).
  cbn [mupguess munguess mualphaguess].
  assert (Hmin_a : Rmin 0.01 (1 - (1 - 0.25)) = 0.01).
  { unfold Rmin. destruct (Rle_dec 0.01 (1 - (1 - 0.25))); lra. }
  assert (Hmin_b : Rmin 0.01 0.25 = 0.01).
  { unfold Rmin. destruct (Rle_dec 0.01 0.25); lra. }
  rewrite Hmin_a, Hmin_b.
  destruct (recovery_of_guess 1e11 0.01
              (2 * (1 - 0.25 - 0.499) * 1e11 / 1.66053907e-24)
              (0.01 * 1e11 / 1.66053907e-24)
              ltac:(lra) ltac:(lra) ltac:(lra) ltac:(lra)) as (Xa & _ & Hrec_a).
  destruct (recovery_of_guess 1e11 0.01
              (0.01 * 1e11 / 1.66053907e-24)
              (2 * (0.5 - 0.25) * 1e11 / 1.66053907e-24)
              ltac:(lra) ltac:(lra) ltac:(lra) ltac:(lra)) as (Xb & _ & Hrec_b).
  rewrite Hrec_a, Hrec_b. cbn [swap12].
  intros Heq. injection Heq; intros; lra.
Qed.

(** C6, amended.  For [rho > 0], [T > 0] and [0 < Y_p < 1], if the
    root-finder answers both calls, the one for [Y_p] and the one for
    [1 - Y_p], with finite potentials at which the three residuals vanish,
    then [get_Xs (rho, T, 1 - Y_p)] is [get_Xs (rho, T, Y_p)] with its first
    two components exchanged and its third unchanged. *)
Theorem symmetry_at_exact_roots (fsolve : (vec3 -> vec3) -> vec3 -> vec3)
    (rho T yp : R) :
  0 < rho -> 0 < T -> 0 < yp < 1 ->
  exact_root fsolve rho T yp ->
  exact_root fsolve rho T (1 - yp) ->
  get_Xs fsolve rho T (Fin (1 - yp)) = swap12 (get_Xs fsolve rho T yp).
Proof.
  intros Hrho HT Hyp (p & n & a & Hs & HLS) (p' & n' & a' & Hs' & HLS').
  rewrite (get_Xs_solved _ _ _ _ _ _ _ Hrho HT Hs).
  rewrite (get_Xs_solved _ _ _ _ _ _ _ Hrho HT Hs').
  rewrite LS_fin in HLS, HLS' by assumption.
  injection HLS as R1 R2 R3. injection HLS' as R1' R2' R3'.
  destruct (alpha_fraction_law rho T Hrho HT) as (K & HK & Hlaw).
  pose proof (Hlaw p n) as La. pose proof (Hlaw p' n') as La'.
  replace (2 * n + 2 * p + 28.3) with a in La by lra.
  replace (2 * n' + 2 * p' + 28.3) with a' in La' by lra.
  pose proof (massFraction_pos p 1 rho T ltac:(lra) Hrho) as Pp.
  pose proof (massFraction_pos n 1 rho T ltac:(lra) Hrho) as Pn.
  pose proof (massFraction_pos p' 1 rho T ltac:(lra) Hrho) as Pp'.
  pose proof (massFraction_pos n' 1 rho T ltac:(lra) Hrho) as Pn'.
  set (Xp := massFractionFromPotential p 1 rho T) in *.
  set (Xn := massFractionFromPotential n 1 rho T) in *.
  set (Xa := massFractionFromPotential a 4 rho T) in *.
  set (Xp' := massFractionFromPotential p' 1 rho T) in *.
  set (Xn' := massFractionFromPotential n' 1 rho T) in *.
  set (Xa' := massFractionFromPotential a' 4 rho T) in *.
  assert (Ep : Xp = yp - Xa / 2) by lra.
  assert (En : Xn = 1 - yp - Xa / 2) by lra.
  assert (En' : Xn' = yp - Xa' / 2) by lra.
  assert (Ep' : Xp' = 1 - yp - Xa' / 2) by lra.
  assert (Eq : Xa = Xa').
  { apply (equilibrium_unique K yp Xa Xa' HK); try lra.
    - rewrite <- Ep, <- En. exact La.
    - rewrite <- En', <- Ep'. rewrite La'. ring. }
  cbn [swap12]. f_equal; [f_equal |]; f_equal; lra.
Qed.

Lemma symmetry_at_exact_roots_witness :
  get_Xs fsolve_demo rho_demo 1 (Fin (1 - yp_demo))
  = swap12 (get_Xs fsolve_demo rho_demo 1 yp_demo).
Proof.
  apply (symmetry_at_exact_roots fsolve_demo rho_demo 1 yp_demo).
  - apply rho_demo_pos.
  - lra.
  - apply yp_demo_range.
  - apply exact_root_demo.
  - apply exact_root_demo_mirror.
Defined.

(** * Further properties of the notebook *)

(** ** More on the two conversions *)

Lemma quantumConcentration_alpha (T : R) :
  0 < T -> quantumConcentration T 4 = 8 * quantumConcentration T 1.
Proof.
  intros HT. unfold quantumConcentration.
  pose proof (nQ_base_pos T 1 HT ltac:(lra)) as Hb.
  replace ((1.24e-10) ^ 2) with (1.24e-10 * 1.24e-10) by ring.
  set (b := 2 * PI * T * 1 * 931.494103 / (1.24e-10 * 1.24e-10)) in *.
  replace (2 * PI * T * 4 * 931.494103 / (1.24e-10 * 1.24e-10))
    with ((2 * 2) * b) by (unfold b; field; lra).
  rewrite <- Rpower_mult_distr by lra.
  rewrite Rpower_square_1_5 by lra. ring.
Qed.

Lemma massFraction_alpha_nucleon (xmu rho T : R) :
  0 < T ->
  massFractionFromPotential xmu 4 rho T
  = 32 * massFractionFromPotential xmu 1 rho T.
Proof.
  intros HT. unfold massFractionFromPotential.
  rewrite quantumConcentration_alpha by assumption. unfold Rdiv. ring.
Qed.

Lemma massFraction_injective (mu1 mu2 A rho T : R) :
  0 < A -> 0 < rho -> 0 < T ->
  massFractionFromPotential mu1 A rho T = massFractionFromPotential mu2 A rho T ->
  mu1 = mu2.
Proof.
  intros HA Hrho HT E.
  destruct (Rtotal_order mu1 mu2) as [L | [Q | G]]; [| exact Q |].
  - pose proof (massFraction_increasing mu1 mu2 A rho T HA Hrho HT L). lra.
  - pose proof (massFraction_increasing mu2 mu1 A rho T HA Hrho HT G). lra.
Qed.

Lemma potential_increasing (T n1 n2 A : R) :
  0 < T -> 0 < n1 -> n1 < n2 ->
  potentialFromNumberDensity T n1 A < potentialFromNumberDensity T n2 A.
Proof.
  intros HT H1 H12. unfold potentialFromNumberDensity.
  pose proof (quantumConcentration_pos T A) as HQ.
  apply Rmult_lt_compat_l; [assumption |].
  apply ln_increasing; [apply Rdiv_lt_0_compat; assumption |].
  apply Rmult_lt_compat_r; [apply Rinv_0_lt_compat; assumption | assumption].
Qed.

Lemma potential_monotone (T n1 n2 A : R) :
  0 < T -> 0 < n1 -> n1 <= n2 ->
  potentialFromNumberDensity T n1 A <= potentialFromNumberDensity T n2 A.
Proof.
  intros HT H1 [L | E].
  - left. apply potential_increasing; assumption.
  - subst. right. reflexivity.
Qed.





(** X3. For [T > 0] and [A > 0], [mu] is non-decreasing in the number
    density on positive densities. *)
Theorem mu_nondecreasing (T n1 n2 A : R) :
  0 < T -> 0 < A -> 0 < n1 -> n1 <= n2 ->
  fl_le (mu T n1 A) (mu T n2 A) = true.
Proof.
  intros HT HA H1 H12. rewrite !mu_fin by lra.
  cbn [fl_le]. unfold Rleb.
  destruct (Rle_dec (potentialFromNumberDensity T n1 A)
                    (potentialFromNumberDensity T n2 A)) as [_ | N];
    [reflexivity |].
  exfalso. apply N. apply potential_monotone; assumption.
Qed.

Lemma mu_nondecreasing_witness :
  fl_le (mu 3 1.5e34 1) (mu 3 4.5e34 1) = true.
Proof. apply (mu_nondecreasing 3 1.5e34 4.5e34 1); lra. Defined.

(** ** [mualpha], [LS] and the species tables *)

Lemma fl_add_comm (a b : fl) : (a + b)%fl = (b + a)%fl.
Proof. destruct a, b; try reflexivity. cbn. f_equal. apply Rplus_comm. Qed.

(** X4. [mualpha] does not depend on the order of its two arguments,
    whatever they are (finite, infinite or [nan]). *)
Theorem mualpha_symmetric (a b : fl) : mualpha a b = mualpha b a.
Proof. unfold mualpha. f_equal. apply fl_add_comm. Qed.

(** X5. The constants written into [mualpha] and [LS] are those of the
    species tables [A], [Z], [B] (neutron, proton, alpha at indices 0, 1, 2):
    for finite potentials [mualpha] is [Z_2 mu_p + (A_2 - Z_2) mu_n + B_2],
    and for [rho > 0], [T > 0] the first two residuals of [LS] are
    [1 - sum_i X_i] and [yp - sum_i Z_i X_i / A_i], with
    [X_i = X (mu_i, A_i, rho, T)]. *)
Theorem residuals_from_species_tables (rho T yp mu_p mu_n mu_alpha : R) :
  0 < rho -> 0 < T ->
  let A_ i := nth i Species.A NaN in
  let Z_ i := nth i Species.Z NaN in
  let B_ i := nth i Species.B NaN in
  let X_ i m := X (Fin m) (A_ i) rho T in
  mualpha mu_n mu_p
  = (Z_ 2%nat * mu_p + (A_ 2%nat - Z_ 2%nat) * mu_n + B_ 2%nat)%fl /\
  LS rho T yp (Fin mu_p, Fin mu_n, Fin mu_alpha)
  = ((1 - (X_ 0%nat mu_n + X_ 1%nat mu_p + X_ 2%nat mu_alpha))%fl,
     (yp - (Z_ 0%nat * X_ 0%nat mu_n / A_ 0%nat
            + Z_ 1%nat * X_ 1%nat mu_p / A_ 1%nat
            + Z_ 2%nat * X_ 2%nat mu_alpha / A_ 2%nat))%fl,
     (mu_alpha - mualpha mu_n mu_p)%fl).
Proof.
  intros Hrho HT. cbv zeta. cbn [nth Species.A Species.Z Species.B].
  split.
  - unfold mualpha. cbn [fl_mul fl_add fl_sub fl_opp]. f_equal. lra.
  - rewrite LS_fin by assumption. rewrite !X_fin by lra.
    rewrite mualpha_fin. unfold alphaPotentialFromConstituents.
    cbn [fl_mul fl_add fl_sub fl_opp].
    rewrite !fl_div_fin by lra.
    cbn [fl_mul fl_add fl_sub fl_opp].
    repeat apply f_equal2; apply f_equal; lra.
Qed.

Lemma residuals_from_species_tables_witness :
  let A_ i := nth i Species.A NaN in
  let Z_ i := nth i Species.Z NaN in
  let B_ i := nth i Species.B NaN in
  let X_ i m := X (Fin m) (A_ i) 1e11 3 in
  mualpha (-8) (-9)
  = (Z_ 2%nat * (-9) + (A_ 2%nat - Z_ 2%nat) * (-8) + B_ 2%nat)%fl /\
  LS 1e11 3 0.25 (Fin (-9), Fin (-8), Fin (-5))
  = ((1 - (X_ 0%nat (-8) + X_ 1%nat (-9) + X_ 2%nat (-5)))%fl,
     (0.25 - (Z_ 0%nat * X_ 0%nat (-8) / A_ 0%nat
              + Z_ 1%nat * X_ 1%nat (-9) / A_ 1%nat
              + Z_ 2%nat * X_ 2%nat (-5) / A_ 2%nat))%fl,
     (-5 - mualpha (-8) (-9))%fl).
Proof. apply (residuals_from_species_tables 1e11 3 0.25 (-9) (-8) (-5)); lra. Defined.

(** ** [check_state] *)

(** X6. [check_state] weighs the alpha particle as a nucleon: for [rho > 0],
    [T > 0] and finite potentials it prints the proton and neutron fractions
    that [get_Xs] would return, but as third number one thirty-second of the
    alpha fraction, and as fourth the sum with that reduced term; on
    potentials whose three fractions add up to 1 the printed sum is below
    1. *)
Theorem check_state_alpha_weight (mun mup mua rho T : R) :
  0 < rho -> 0 < T ->
  exists Xp Xn Xa : R,
    (X mup 1 rho T, X mun 1 rho T, X mua 4 rho T) = (Fin Xp, Fin Xn, Fin Xa) /\
    check_state mun mup mua rho T
    = [Fin Xp; Fin Xn; Fin (Xa / 32); Fin (Xp + Xn + Xa / 32)] /\
    (Xp + Xn + Xa = 1 -> Xp + Xn + Xa / 32 < 1).
Proof.
  intros Hrho HT.
  exists (massFractionFromPotential mup 1 rho T),
         (massFractionFromPotential mun 1 rho T),
         (massFractionFromPotential mua 4 rho T).
  pose proof (massFraction_pos mua 4 rho T ltac:(lra) Hrho) as Ha.
  split; [rewrite !X_fin by lra; reflexivity |].
  split; [| intros; lra].
  unfold check_state. cbv zeta. rewrite !X_fin by lra.
  cbn [fl_add].
  rewrite (massFraction_alpha_nucleon mua rho T HT).
  repeat f_equal; lra.
Qed.

Lemma check_state_alpha_weight_witness :
  exists Xp Xn Xa : R,
    (X (-9) 1 1e11 3, X (-8) 1 1e11 3, X (-5) 4 1e11 3) = (Fin Xp, Fin Xn, Fin Xa) /\
    check_state (-8) (-9) (-5) 1e11 3
    = [Fin Xp; Fin Xn; Fin (Xa / 32); Fin (Xp + Xn + Xa / 32)] /\
    (Xp + Xn + Xa = 1 -> Xp + Xn + Xa / 32 < 1).
Proof. apply (check_state_alpha_weight (-8) (-9) (-5) 1e11 3); lra. Defined.

(** ** The nonlinear system *)

(** X7. For [1 <= rho <= 1e15], [0.01 <= T <= 100] and
    [1e-300 <= Y_p < 1] the seed [get_Xs] passes to the root-finder already
    satisfies the third equation: [mualphaguess] was computed from the other
    two potentials by [mualpha], so the last residual of [LS] at the seed is
    exactly 0. *)
Theorem seed_solves_third_equation (rho T yp : R) :
  1 <= rho <= 1e15 -> 0.01 <= T <= 100 -> 1e-300 <= yp < 1 ->
  vec_alpha (LS rho T yp (seed_of (final_guess rho T yp))) = Fin 0.
Proof.
  intros Hrho HT Hyp.
  destruct (final_guess_defined rho T yp)
    as (n_p & n_n & _ & _ & _ & _ & _ & _ & Ep & En & Ea); try lra.
  unfold seed_of. rewrite Ep, En, Ea, LS_fin by lra.
  cbn [vec_alpha snd]. apply f_equal.
  unfold alphaPotentialFromConstituents. lra.
Qed.

(** At [rho = 1e11], [T = 0.01], [Y_p = 0.5] the seed is the recomputed
    guess. *)
Lemma seed_solves_third_equation_witness :
  vec_alpha (LS 1e11 0.01 0.5 (seed_of (final_guess 1e11 0.01 0.5))) = Fin 0.
Proof. apply (seed_solves_third_equation 1e11 0.01 0.5); lra. Defined.

Lemma exact_root_equations (rho T yp p n a : R) :
  0 < rho -> 0 < T ->
  LS rho T yp (Fin p, Fin n, Fin a) = (Fin 0, Fin 0, Fin 0) ->
  massFractionFromPotential p 1 rho T
  + massFractionFromPotential n 1 rho T
  + massFractionFromPotential a 4 rho T = 1 /\
  massFractionFromPotential p 1 rho T
  + massFractionFromPotential a 4 rho T / 2 = yp /\
  a = 2 * n + 2 * p + 28.3.
Proof.
  intros Hrho HT HLS. rewrite LS_fin in HLS by assumption.
  injection HLS as R1 R2 R3. repeat split; lra.
Qed.

(** X8. When the root-finder returns finite potentials at which all three
    residuals vanish, the triple returned by [get_Xs] conserves mass and
    charge exactly, each fraction lies strictly between 0 and 1, and the
    alpha fraction is below [2 Y_p] and below [2 (1 - Y_p)]; such a root
    exists only for [0 < Y_p < 1]. *)
Theorem equilibrium_fractions (fsolve : (vec3 -> vec3) -> vec3 -> vec3)
    (rho T yp : R) :
  0 < rho -> 0 < T -> exact_root fsolve rho T yp ->
  exists Xp Xn Xa : R,
    get_Xs fsolve rho T yp = (Fin Xp, Fin Xn, Fin Xa) /\
    Xp + Xn + Xa = 1 /\ Xp + Xa / 2 = yp /\
    0 < Xp < 1 /\ 0 < Xn < 1 /\ 0 < Xa < 1 /\
    Xa < 2 * yp /\ Xa < 2 * (1 - yp) /\ 0 < yp < 1.
Proof.
  intros Hrho HT (p & n & a & Hs & HLS).
  destruct (exact_root_equations rho T yp p n a Hrho HT HLS) as (E1 & E2 & _).
  pose proof (massFraction_pos p 1 rho T ltac:(lra) Hrho) as Pp.
  pose proof (massFraction_pos n 1 rho T ltac:(lra) Hrho) as Pn.
  pose proof (massFraction_pos a 4 rho T ltac:(lra) Hrho) as Pa.
  exists (massFractionFromPotential p 1 rho T),
         (massFractionFromPotential n 1 rho T),
         (massFractionFromPotential a 4 rho T).
  split; [apply get_Xs_solved; assumption |].
  repeat split; lra.
Qed.

Lemma equilibrium_fractions_witness :
  exists Xp Xn Xa : R,
    get_Xs fsolve_demo rho_demo 1 yp_demo = (Fin Xp, Fin Xn, Fin Xa) /\
    Xp + Xn + Xa = 1 /\ Xp + Xa / 2 = yp_demo /\
    0 < Xp < 1 /\ 0 < Xn < 1 /\ 0 < Xa < 1 /\
    Xa < 2 * yp_demo /\ Xa < 2 * (1 - yp_demo) /\ 0 < yp_demo < 1.
Proof.
  apply (equilibrium_fractions fsolve_demo rho_demo 1 yp_demo);
    [apply rho_demo_pos | lra | apply exact_root_demo].
Defined.

(** X9. For [rho > 0] and [T > 0] the system [LS] has at most one finite
    root: two finite potential triples at which all three residuals vanish
    are equal.  Hence two root-finders that both return exact roots make
    [get_Xs] return the same triple, whatever seed they started from. *)
Theorem LS_root_unique (f1 f2 : (vec3 -> vec3) -> vec3 -> vec3)
    (rho T yp p n a p' n' a' : R) :
  0 < rho -> 0 < T ->
  LS rho T yp (Fin p, Fin n, Fin a) = (Fin 0, Fin 0, Fin 0) ->
  LS rho T yp (Fin p', Fin n', Fin a') = (Fin 0, Fin 0, Fin 0) ->
  (p = p' /\ n = n' /\ a = a') /\
  (solved_at f1 rho T yp p n a -> solved_at f2 rho T yp p' n' a' ->
   get_Xs f1 rho T yp = get_Xs f2 rho T yp).
Proof.
  intros Hrho HT H H'.
  destruct (exact_root_equations rho T yp p n a Hrho HT H) as (E1 & E2 & E3).
  destruct (exact_root_equations rho T yp p' n' a' Hrho HT H') as (E1' & E2' & E3').
  destruct (alpha_fraction_law rho T Hrho HT) as (K & HK & Hlaw).
  pose proof (Hlaw p n) as La. pose proof (Hlaw p' n') as La'.
  rewrite <- E3 in La. rewrite <- E3' in La'.
  pose proof (massFraction_pos p 1 rho T ltac:(lra) Hrho) as Pp.
  pose proof (massFraction_pos n 1 rho T ltac:(lra) Hrho) as Pn.
  pose proof (massFraction_pos p' 1 rho T ltac:(lra) Hrho) as Pp'.
  pose proof (massFraction_pos n' 1 rho T ltac:(lra) Hrho) as Pn'.
  assert (Ep : p = p' /\ n = n').
  { set (Xp := massFractionFromPotential p 1 rho T) in *.
    set (Xn := massFractionFromPotential n 1 rho T) in *.
    set (Xa := massFractionFromPotential a 4 rho T) in *.
    set (Xp' := massFractionFromPotential p' 1 rho T) in *.
    set (Xn' := massFractionFromPotential n' 1 rho T) in *.
    set (Xa' := massFractionFromPotential a' 4 rho T) in *.
    assert (Fp : Xp = yp - Xa / 2) by lra.
    assert (Fn : Xn = 1 - yp - Xa / 2) by lra.
    assert (Fp' : Xp' = yp - Xa' / 2) by lra.
    assert (Fn' : Xn' = 1 - yp - Xa' / 2) by lra.
    assert (Eq : Xa = Xa').
    { apply (equilibrium_unique K yp Xa Xa' HK); try lra.
      - rewrite <- Fp, <- Fn. exact La.
      - rewrite <- Fp', <- Fn'. exact La'. }
    split.
    - apply (massFraction_injective p p' 1 rho T); try lra. fold Xp Xp'. lra.
    - apply (massFraction_injective n n' 1 rho T); try lra. fold Xn Xn'. lra. }
  destruct Ep as [-> ->].
  assert (Ea : a = a') by lra.
  split; [repeat split; exact Ea |].
  intros S1 S2.
  rewrite (get_Xs_solved _ _ _ _ _ _ _ Hrho HT S1).
  rewrite (get_Xs_solved _ _ _ _ _ _ _ Hrho HT S2).
  rewrite Ea. reflexivity.
Qed.

Lemma LS_root_unique_witness :
  (0 = 0 /\ 1 = 1 /\ 30.3 = 30.3) /\
  (solved_at fsolve_demo rho_demo 1 yp_demo 0 1 30.3 ->
   solved_at fsolve_demo rho_demo 1 yp_demo 0 1 30.3 ->
   get_Xs fsolve_demo rho_demo 1 yp_demo = get_Xs fsolve_demo rho_demo 1 yp_demo).
Proof.
  apply (LS_root_unique fsolve_demo fsolve_demo rho_demo 1 yp_demo 0 1 30.3 0 1 30.3);
    [apply rho_demo_pos | lra | apply demo_root | apply demo_root].
Defined.

(** ** The regime test and the recomputed guess *)

(** On a valid input the test [mualphaguess>munguess] asks whether
    [munguess + 2 mupguess + 28.3] is positive. *)
Lemma stiff_spec (rho T yp : R) :
  0 < rho -> 0 < T -> 0 < yp < 1 ->
  stiff rho T yp = true <->
  0 < potentialFromNumberDensity T ((1 - yp) * rho / 1.66053907e-24) 1
      + 2 * potentialFromNumberDensity T (yp * rho / 1.66053907e-24) 1 + 28.3.
Proof.
  intros Hrho HT [Hy0 Hy1]. unfold stiff. rewrite baseline_guess_fin. cbv zeta.
  cbn [mualphaguess munguess].
  rewrite !mu_fin by (try apply density_pos; lra).
  rewrite mualpha_fin. rewrite fl_gt_fin. unfold alphaPotentialFromConstituents.
  split; intros; lra.
Qed.



(** X11. The regime test is not mirror symmetric, it leans to the
    proton-rich side: for [0 < Y_p <= 0.5], if the recomputation is taken at
    [Y_p] it is also taken at [1 - Y_p]. *)
Theorem stiff_mirror (rho T yp : R) :
  0 < rho -> 0 < T -> 0 < yp <= 0.5 ->
  stiff rho T yp = true -> stiff rho T (Fin (1 - yp)) = true.
Proof.
  intros Hrho HT Hyp Hs.
  apply stiff_spec in Hs; try assumption; [| lra].
  apply stiff_spec; try assumption; [lra |].
  replace (1 - (1 - yp)) with yp by lra.
  assert (M : potentialFromNumberDensity T (yp * rho / 1.66053907e-24) 1
              <= potentialFromNumberDensity T ((1 - yp) * rho / 1.66053907e-24) 1).
  { apply potential_monotone; [assumption | apply density_pos; lra |].
    unfold Rdiv. apply Rmult_le_compat_r; [lra |].
    apply Rmult_le_compat_r; lra. }
  lra.
Qed.

Lemma stiff_mirror_witness : stiff 1e11 0.01 (Fin (1 - 0.25)) = true.
Proof.
  apply (stiff_mirror 1e11 0.01 0.25); try lra.
  apply stiff_cold. lra.
Defined.




(** ** The sweep cells *)

Lemma setitem_fill (done : list fl) (rest : nat) (v : fl) :
  setitem (done ++ np_zeros (S rest)) (length done) v
  = Some ((done ++ [v]) ++ np_zeros rest).
Proof.
  unfold setitem, np_zeros.
  assert (Hlt : Nat.ltb (length done) (length (done ++ repeat (Fin 0) (S rest))) = true).
  { apply Nat.ltb_lt. rewrite length_app, repeat_length. lia. }
  rewrite Hlt. f_equal.
  rewrite firstn_app, firstn_all, Nat.sub_diag. cbn [firstn].
  rewrite skipn_app, skipn_all2 by lia.
  replace (S (length done) - length done)%nat with 1%nat by lia.
  cbn [repeat skipn app]. rewrite app_nil_r, <- app_assoc. reflexivity.
Qed.

Lemma setitem_past_end (a : list fl) (i : nat) (v : fl) :
  length a = i -> setitem a i v = None.
Proof. intros <-. unfold setitem. rewrite Nat.ltb_irrefl. reflexivity. Qed.

Lemma sweep_failed (call : fl -> vec3) (xs : list fl) :
  fold_left (sweep_step call) xs None = None.
Proof. induction xs as [| x xs IH]; [reflexivity | exact IH]. Qed.

Lemma sweep_from (call : fl -> vec3) (xs : list fl) :
  forall (ps ns als : list fl) (rest : nat),
    length ns = length ps -> length als = length ps ->
    (length xs <= rest)%nat ->
    fold_left (sweep_step call) xs
      (Some (ps ++ np_zeros rest, ns ++ np_zeros rest, als ++ np_zeros rest,
             length ps))
    = Some ((ps ++ map (fun x => vec_p (call x)) xs)
              ++ np_zeros (rest - length xs),
            (ns ++ map (fun x => vec_n (call x)) xs)
              ++ np_zeros (rest - length xs),
            (als ++ map (fun x => vec_alpha (call x)) xs)
              ++ np_zeros (rest - length xs),
            (length ps + length xs)%nat).
Proof.
  induction xs as [| x xs IH]; intros ps ns als rest Hn Ha Hlen.
  - cbn [fold_left map length]. rewrite !app_nil_r, Nat.sub_0_r, Nat.add_0_r.
    reflexivity.
  - cbn [length] in Hlen. destruct rest as [| rest]; [lia |].
    cbn [fold_left map length]. unfold sweep_step at 2.
    unfold vec_p, vec_n, vec_alpha.
    destruct (call x) as [[xp xn] xa]. cbn [fst snd].
    rewrite setitem_fill.
    rewrite <- Hn at 1. rewrite setitem_fill.
    rewrite <- Ha at 1. rewrite setitem_fill.
    replace (S (length ps)) with (length (ps ++ [xp]))
      by (rewrite length_app; cbn [length]; lia).
    rewrite IH; try (rewrite ?length_app; cbn [length]; lia).
    rewrite <- !app_assoc. cbn [app].
    rewrite length_app. cbn [length].
    replace (S rest - S (length xs))%nat with (rest - length xs)%nat by lia.
    replace (length ps + 1 + length xs)%nat with (length ps + S (length xs))%nat by lia.
    reflexivity.
Qed.

Lemma sweep_fits (call : fl -> vec3) (size : nat) (xs : list fl) :
  (length xs <= size)%nat ->
  sweep call size xs
  = Some (map (fun x => vec_p (call x)) xs ++ np_zeros (size - length xs),
          map (fun x => vec_n (call x)) xs ++ np_zeros (size - length xs),
          map (fun x => vec_alpha (call x)) xs ++ np_zeros (size - length xs),
          length xs).
Proof.
  intros Hlen. unfold sweep.
  exact (sweep_from call xs [] [] [] size eq_refl eq_refl Hlen).
Qed.

Lemma sweep_overflows (call : fl -> vec3) (size : nat) (xs : list fl) :
  (size < length xs)%nat -> sweep call size xs = None.
Proof.
  intros Hlen. unfold sweep.
  rewrite <- (firstn_skipn size xs), fold_left_app.
  assert (Hfirst : length (firstn size xs) = size)
    by (rewrite length_firstn; lia).
  pose proof (sweep_fits call size (firstn size xs) ltac:(lia)) as Hfit.
  unfold sweep in Hfit. rewrite Hfit, Hfirst, Nat.sub_diag.
  destruct (skipn size xs) as [| y ys] eqn:Hskip.
  - apply (f_equal (@length fl)) in Hskip. rewrite length_skipn in Hskip.
    cbn [length] in Hskip. lia.
  - cbn [fold_left]. unfold sweep_step at 2.
    destruct (call y) as [[yp yn] ya].
    assert (Hfull : setitem (map (fun x => vec_p (call x)) (firstn size xs) ++ np_zeros 0)
                            size yp = None).
    { apply setitem_past_end.
      rewrite length_app, length_map, Hfirst. unfold np_zeros. cbn [repeat length]. lia. }
    rewrite Hfull. apply sweep_failed.
Qed.

(** X13. A sweep cell stores the result of its i-th call at index i of the
    three arrays and leaves the later entries at their initial 0; [count]
    ends as the number of inputs.  With more inputs than array entries the
    loop stops with an [IndexError]. *)
Theorem sweep_bounds (call : fl -> vec3) (size : nat) (xs : list fl) :
  ((length xs <= size)%nat ->
   sweep call size xs
   = Some (map (fun x => vec_p (call x)) xs ++ np_zeros (size - length xs),
           map (fun x => vec_n (call x)) xs ++ np_zeros (size - length xs),
           map (fun x => vec_alpha (call x)) xs ++ np_zeros (size - length xs),
           length xs)) /\
  ((size < length xs)%nat -> sweep call size xs = None).
Proof. split; [apply sweep_fits | apply sweep_overflows]. Qed.

Lemma np_linspace_length (start stop : R) (num : nat) :
  length (np_linspace start stop num) = num.
Proof. unfold np_linspace. rewrite length_map, length_seq. reflexivity. Qed.

Lemma np_linspace_range (start stop : R) (num : nat) :
  (2 <= num)%nat -> start <= stop ->
  Forall (fun x => exists t : R, x = Fin t /\ start <= t <= stop)
         (np_linspace start stop num).
Proof.
  intros Hnum Hle. apply Forall_forall. intros x Hin.
  unfold np_linspace in Hin. apply in_map_iff in Hin.
  destruct Hin as (i & <- & Hi). apply in_seq in Hi.
  eexists. split; [reflexivity |].
  assert (HN : 0 < INR (num - 1)) by (apply lt_0_INR; lia).
  assert (Hr0 : 0 <= INR i) by apply pos_INR.
  assert (Hr1 : INR i <= INR (num - 1)) by (apply le_INR; lia).
  set (N := INR (num - 1)) in *. set (r := INR i) in *.
  assert (Hq0 : 0 <= (stop - start) / N).
  { unfold Rdiv. apply Rmult_le_pos; [lra | left; apply Rinv_0_lt_compat; assumption]. }
  assert (Hq1 : N * ((stop - start) / N) = stop - start) by (field; lra).
  split; nra.
Qed.

Lemma sweep_cell (call : fl -> vec3) (start stop : R) :
  sweep call 100 (np_linspace start stop 100)
  = Some (map (fun x => vec_p (call x)) (np_linspace start stop 100),
          map (fun x => vec_n (call x)) (np_linspace start stop 100),
          map (fun x => vec_alpha (call x)) (np_linspace start stop 100),
          100%nat).
Proof.
  rewrite sweep_fits by (rewrite np_linspace_length; lia).
  rewrite np_linspace_length, Nat.sub_diag. unfold np_zeros. cbn [repeat].
  rewrite !app_nil_r. reflexivity.
Qed.

(** X14. The temperature sweep runs to its end whatever the root-finder
    returns: all 100 entries of the three arrays are written, entry i holding
    the result for the i-th temperature, and [count] ends at 100.  Every
    temperature lies in the interval from 1 to 10, so every call is on a valid
    input and every guess it forms has positive densities and finite
    potentials. *)
Theorem temperature_sweep_complete (fsolve : (vec3 -> vec3) -> vec3 -> vec3) :
  let Ts := np_linspace 1 10 100 in
  temperature_sweep fsolve
  = Some (map (fun T => vec_p (get_Xs fsolve 1e11 T 0.25)) Ts,
          map (fun T => vec_n (get_Xs fsolve 1e11 T 0.25)) Ts,
          map (fun T => vec_alpha (get_Xs fsolve 1e11 T 0.25)) Ts,
          100%nat) /\
  length Ts = 100%nat /\
  Forall (fun T => exists t : R,
            T = Fin t /\ 1 <= t <= 10 /\
            Forall (guess_defined t) (guess_states 1e11 T 0.25)) Ts.
Proof.
  cbv zeta. split; [apply sweep_cell |]. split; [apply np_linspace_length |].
  pose proof (np_linspace_range 1 10 100 ltac:(lia) ltac:(lra)) as Hr.
  apply Forall_forall. intros T HT.
  rewrite Forall_forall in Hr. destruct (Hr T HT) as (t & -> & Ht).
  exists t. repeat split; try lra.
  apply guess_states_defined; lra.
Qed.

(** X15. The proton-fraction sweep runs to its end whatever the root-finder
    returns: all 100 entries of the three arrays are written, entry i holding
    the result for the i-th proton fraction, and [count] ends at 100.  Every
    proton fraction lies in the interval from 0.001 to 0.999, so every call
    is on a valid input and every guess it forms has positive densities and
    finite potentials. *)
Theorem proton_fraction_sweep_complete
    (fsolve : (vec3 -> vec3) -> vec3 -> vec3) :
  let yps := np_linspace 0.001 0.999 100 in
  proton_fraction_sweep fsolve
  = Some (map (fun yp => vec_p (get_Xs fsolve 1e11 3 yp)) yps,
          map (fun yp => vec_n (get_Xs fsolve 1e11 3 yp)) yps,
          map (fun yp => vec_alpha (get_Xs fsolve 1e11 3 yp)) yps,
          100%nat) /\
  length yps = 100%nat /\
  Forall (fun yp => exists y : R,
            yp = Fin y /\ 0.001 <= y <= 0.999 /\
            Forall (guess_defined 3) (guess_states 1e11 3 yp)) yps.
Proof.
  cbv zeta. split; [apply sweep_cell |]. split; [apply np_linspace_length |].
  pose proof (np_linspace_range 0.001 0.999 100 ltac:(lia) ltac:(lra)) as Hr.
  apply Forall_forall. intros yp Hyp.
  rewrite Forall_forall in Hr. destruct (Hr yp Hyp) as (y & -> & Hy).
  exists y. repeat split; try lra.
  apply guess_states_defined; lra.
Qed.
